(** * Basic neural-network layers of [mxnet.gluon.nn.basic_layers]

    A shallow embedding of [python/mxnet/gluon/nn/basic_layers.py]:
    the containers [Sequential] and [HybridSequential] and the leaf
    layers [Dense], [Activation], [Dropout], [BatchNorm], [LeakyReLU],
    [Embedding] and [Flatten].

    Python objects live in a heap and are named by references; a method
    is a computation in a state-and-exception monad over that heap and
    over the state of the tensor engine.  The operator namespace [F]
    ([mxnet.ndarray] or [mxnet.symbol]) is external to the file and is
    taken as a record of operations. *)

From Stdlib Require Import ZArith QArith Lia.
From stdpp Require Import base option list strings gmap pretty.

(** ** Python values that occur as keyword arguments *)

Inductive pyval :=
| PInt (n : Z)
| PFloat (q : Q)
| PBool (b : bool)
| PStr (s : string)
| PShape (dims : list Z).

(** ** Exceptions and results *)

Inductive exn :=
| RankError
| TypeError
| ShapeConflict
| InferenceError
| NotDeferrable
| DuplicateName
| TraceError
| ValueError
| AttributeError
| RecursionError
| DeferredInitializationError
| MXNetError (op : string).

Inductive result (A : Type) :=
| Ok (a : A)
| Raise (e : exn).
Arguments Ok {A} a.
Arguments Raise {A} e.

Definition rbind {A C : Type} (r : result A) (k : A -> result C) : result C :=
  match r with
  | Ok a => k a
  | Raise e => Raise e
  end.

Notation "x <~ r ;; k" := (rbind r (fun x => k))
  (at level 100, r at next level, right associativity).

(** ** Tensors: concrete arrays and symbolic graph nodes *)

Module NDArray.

(** An array is its shape and its elements in row-major order. *)
Record t := mk { shape : list Z; data : list Q }.

Definition size (dims : list Z) : Z := fold_right Z.mul 1%Z dims.

Definition wf (a : t) : Prop :=
  Forall (fun d => (0 < d)%Z) (shape a) /\
  Z.of_nat (length (data a)) = size (shape a).

(** Row-major offset of a multi-index. *)
Fixpoint ravel (dims idx : list Z) : Z :=
  match dims, idx with
  | _ :: ds, i :: ix => (i * size ds + ravel ds ix)%Z
  | _, _ => 0%Z
  end.

(** Multi-index of a row-major offset. *)
Fixpoint unravel (dims : list Z) (off : Z) : list Z :=
  match dims with
  | [] => []
  | _ :: ds => (off / size ds)%Z :: unravel ds (off mod size ds)%Z
  end.

Fixpoint valid_index (dims idx : list Z) : bool :=
  match dims, idx with
  | [], [] => true
  | d :: ds, i :: ix => (0 <=? i)%Z && (i <? d)%Z && valid_index ds ix
  | _, _ => false
  end.

(** [a[i1, ..., ik]]; [None] stands for Python's IndexError. *)
Definition at_ (a : t) (idx : list Z) : option Q :=
  if valid_index (shape a) idx
  then data a !! Z.to_nat (ravel (shape a) idx)
  else None.

(** Modelled from the spec: [NDArray.reshape] belongs to the tensor
    engine and is not part of this file.  Only the two special codes
    that [Flatten] uses are modelled: [0] copies the dimension at the
    same position of the input shape, [-1] is inferred from the
    remaining elements.  The elements keep their row-major order. *)
Fixpoint copy_dims (target src : list Z) : result (list Z) :=
  match target with
  | [] => Ok []
  | d :: target' =>
      if (d =? 0)%Z then
        match src with
        | s :: src' => ds <~ copy_dims target' src' ;; Ok (s :: ds)
        | [] => Raise (MXNetError "Reshape")
        end
      else if (d <? -1)%Z then Raise (MXNetError "Reshape")
      else ds <~ copy_dims target' (tail src) ;; Ok (d :: ds)
  end.

Definition known (dims : list Z) : Z :=
  size (filter (fun d => d <> (-1)%Z) dims).

Definition infer_dim (total : Z) (dims : list Z) : result (list Z) :=
  let k := known dims in
  match length (filter (fun d => d = (-1)%Z) dims) with
  | O => if (k =? total)%Z then Ok dims else Raise (MXNetError "Reshape")
  | S O =>
      if (k =? 0)%Z || negb (total mod k =? 0)%Z
      then Raise (MXNetError "Reshape")
      else Ok (map (fun d => if (d =? -1)%Z then (total / k)%Z else d) dims)
  | _ => Raise (MXNetError "Reshape")
  end.

Definition reshape (a : t) (target : list Z) : result t :=
  dims <~ copy_dims target (shape a) ;;
  dims' <~ infer_dim (size (shape a)) dims ;;
  Ok (mk dims' (data a)).

End NDArray.

(** A symbol is a variable (a placeholder, possibly with a declared
    shape) or an operator applied to symbols with attributes. *)
#[warnings="-register-all"]
Inductive Symbol :=
| Var (name : string) (shape : option (list Z))
| Apply (op : string) (inputs : list Symbol) (attrs : gmap string pyval).

(** The argument [x] of a layer is an [NDArray] in eager mode and a
    [Symbol] while a graph is traced. *)
Inductive tensor :=
| nd (a : NDArray.t)
| sym (s : Symbol).

(** Rank of a tensor, where it is known without shape inference. *)
Definition ndim (x : tensor) : option nat :=
  match x with
  | nd a => Some (length (NDArray.shape a))
  | sym (Var _ (Some dims)) => Some (length dims)
  | sym _ => None
  end.

(** [x.reshape(shape)], dispatched on the class of [x]. *)
Definition reshape (x : tensor) (target : list Z) : result tensor :=
  match x with
  | nd a => a' <~ NDArray.reshape a target ;; Ok (nd a')
  | sym s => Ok (sym (Apply "Reshape" [s] {[ "shape" := PShape target ]}))
  end.

(** ** The operator namespace [F]

    The operators are external (the tensor engine or the graph
    builder).  An operator sees its arguments and the state [B] of its
    backend (random numbers, the autograd tape, scheduling); it may
    raise. *)
Module Op.

Record t (B : Type) := mk {
  FullyConnected :
    tensor -> tensor -> option tensor ->
    forall (no_bias : bool) (num_hidden : Z), B -> result tensor * B;
  Activation : tensor -> forall act_type : string, B -> result tensor * B;
  Dropout : tensor -> forall p : Q, B -> result tensor * B;
  BatchNorm :
    tensor -> tensor -> tensor -> tensor -> tensor ->
    gmap string pyval -> B -> result tensor * B;
  LeakyReLU :
    tensor -> forall (act_type : string) (slope : Q), B -> result tensor * B;
  Embedding : tensor -> tensor -> gmap string pyval -> B -> result tensor * B
}.
Arguments FullyConnected {B}.
Arguments Activation {B}.
Arguments Dropout {B}.
Arguments BatchNorm {B}.
Arguments LeakyReLU {B}.
Arguments Embedding {B}.

End Op.

(** ** Parameters and parameter dictionaries

    [Parameter] and [ParameterDict] are defined in [..parameter], which
    is not part of this file: they are modelled from the spec. *)

Module Param.

(** Modelled from the spec: the [Parameter] of [..parameter] (absent
    here): a named tensor slot with a shape in which [0] stands for an
    unknown dimension, an initializer, a gradient mode (['write'] is
    trainable, ['null'] is frozen), the deferral flag and its data,
    absent before initialization. *)
Record t := mk {
  name : string;
  grad_req : string;
  shape : list Z;
  init : option string;
  allow_deferred_init : bool;
  data : option NDArray.t
}.

Definition unknown (dims : list Z) : bool :=
  existsb (fun d => (d =? 0)%Z) dims.

(** Modelled from the spec: a Parameter is marked deferred if any
    dimension is unknown and [allow_deferred_init] is true. *)
Definition deferred (p : t) : bool :=
  unknown (shape p) && allow_deferred_init p.

Definition trainable (p : t) : bool :=
  negb (String.eqb (grad_req p) "null").

Fixpoint compatible (declared observed : list Z) : bool :=
  match declared, observed with
  | [], [] => true
  | d :: ds, o :: os =>
      ((d =? o)%Z || (d =? 0)%Z || (o =? 0)%Z) && compatible ds os
  | _, _ => false
  end.

(** Modelled from the spec: [resolve_shape(observed_dims)] fills the
    unknown dimensions of the declared shape from the observed ones;
    it fails with InferenceError when the observation has another
    rank or is itself unknown there, and with ShapeConflict when a
    known dimension disagrees. *)
Fixpoint resolve (declared observed : list Z) : result (list Z) :=
  match declared, observed with
  | [], [] => Ok []
  | d :: ds, o :: os =>
      rest <~ resolve ds os ;;
      if (d =? 0)%Z then
        if (0 <? o)%Z then Ok (o :: rest) else Raise InferenceError
      else if (o =? 0)%Z || (d =? o)%Z then Ok (d :: rest)
      else Raise ShapeConflict
  | _, _ => Raise InferenceError
  end.

Definition resolve_shape (p : t) (observed : list Z) : result t :=
  dims <~ resolve (shape p) observed ;;
  Ok (mk (name p) (grad_req p) dims (init p) (allow_deferred_init p) (data p)).

End Param.

Module ParameterDict.

(** Modelled from the spec: the [ParameterDict] of [..parameter]
    (absent here): a prefix and an insertion-ordered mapping from short
    names to Parameters. *)
Record t := mk {
  prefix : string;
  mapping : list (string * Param.t)
}.

Definition empty (prefix : string) : t := mk prefix [].

Fixpoint find (key : string) (m : list (string * Param.t))
  : option Param.t :=
  match m with
  | [] => None
  | (k, p) :: m' => if String.eqb k key then Some p else find key m'
  end.

Definition lookup (pd : t) (key : string) : option Param.t :=
  find key (mapping pd).

Fixpoint replace (key : string) (p : Param.t)
  (m : list (string * Param.t)) : list (string * Param.t) :=
  match m with
  | [] => []
  | (k, q) :: m' =>
      if String.eqb k key then (k, p) :: m' else (k, q) :: replace key p m'
  end.

Definition update (pd : t) (key : string) (p : Param.t) : t :=
  mk (prefix pd) (replace key p (mapping pd)).

(** Modelled from the spec: [get(dict, name, shape, initializer,
    gradient_mode, allow_deferred_init)] returns the Parameter already
    registered under the name when the shapes are compatible, fails
    with ShapeConflict when they are not, and otherwise creates the
    Parameter under the fully-qualified name [prefix + name] and
    appends it to the mapping. *)
Definition get (pd : t) (name : string) (grad_req : string)
  (shape : list Z) (init : option string) (allow_deferred_init : bool)
  : result (Param.t * t) :=
  match lookup pd name with
  | Some p =>
      if Param.compatible (Param.shape p) shape
      then Ok (p, pd)
      else Raise ShapeConflict
  | None =>
      let p := Param.mk (prefix pd +:+ name) grad_req shape init
                 allow_deferred_init None in
      Ok (p, mk (prefix pd) (mapping pd ++ [(name, p)]))
  end.

Definition values (pd : t) : list Param.t := map snd (mapping pd).

(** Modelled from the spec: the enumeration handed to the gradient
    engine: the Parameters whose gradient mode is trainable, in
    insertion order. *)
Definition trainable (pd : t) : list Param.t :=
  filter (fun p => Param.trainable p = true) (values pd).

End ParameterDict.

(** ** Objects, the heap and the monad of methods *)

(** A reference to an object is its position in the heap. *)
Abbreviation ref := nat.

(** Modelled from the spec: the attributes a [Block] of [..block]
    (absent here) gives every layer: its name prefix, its ParameterDict
    and the ordered list of its children. *)
Record Block := mkBlock {
  prefix : string;
  params : ParameterDict.t;
  _children : list ref
}.

(** The attributes each class of this file adds in its [__init__].
    A Parameter attribute ([self.weight], ...) is a reference to the
    Parameter registered in [params]: its key there. *)
Module Attr.

Module Dense.
Record t := mk {
  _units : Z;
  _in_units : Z;
  weight : string;
  bias : option string;
  act : option ref
}.
End Dense.

Module Activation.
Record t := mk { _act_type : string }.
End Activation.

Module Dropout.
Record t := mk { _rate : Q }.
End Dropout.

Module BatchNorm.
Record t := mk {
  _kwargs : gmap string pyval;
  in_channels : option Z;
  gamma : string;
  beta : string;
  running_mean : string;
  running_var : string
}.
End BatchNorm.

Module LeakyReLU.
Record t := mk { _alpha : Q }.
End LeakyReLU.

Module Embedding.
Record t := mk {
  _kwargs : gmap string pyval;
  weight : string
}.
End Embedding.

Inductive t :=
| Sequential
| HybridSequential
| Dense (d : Dense.t)
| Activation (a : Activation.t)
| Dropout (d : Dropout.t)
| BatchNorm (b : BatchNorm.t)
| LeakyReLU (l : LeakyReLU.t)
| Embedding (e : Embedding.t)
| Flatten.

End Attr.

Record Obj := mkObj { base : Block; attrs : Attr.t }.

Record World (B : Type) := mkWorld { heap : list Obj; engine : B }.
Arguments mkWorld {B}.
Arguments heap {B}.
Arguments engine {B}.

Definition M (B A : Type) : Type := World B -> result A * World B.

Section Monad.
Context {B : Type}.

Definition ret {A} (a : A) : M B A := fun w => (Ok a, w).

Definition raise {A} (e : exn) : M B A := fun w => (Raise e, w).

Definition bind {A C} (m : M B A) (k : A -> M B C) : M B C :=
  fun w =>
    match m w with
    | (Ok a, w') => k a w'
    | (Raise e, w') => (Raise e, w')
    end.

Definition lift {A} (r : result A) : M B A := fun w => (r, w).

(** An operator of the namespace runs on the engine alone. *)
Definition op {A} (f : B -> result A * B) : M B A :=
  fun w =>
    let '(r, b) := f (engine w) in (r, mkWorld (heap w) b).

Definition deref (r : ref) : M B Obj :=
  fun w =>
    match heap w !! r with
    | Some o => (Ok o, w)
    | None => (Raise AttributeError, w)
    end.

Definition alloc (o : Obj) : M B ref :=
  fun w => (Ok (length (heap w)), mkWorld (heap w ++ [o]) (engine w)).

Definition store (r : ref) (o : Obj) : M B unit :=
  fun w => (Ok tt, mkWorld (<[r := o]> (heap w)) (engine w)).

End Monad.

Notation "x <- m ;; k" := (bind m (fun x => k))
  (at level 100, m at next level, right associativity).

(** [self.__class__.__name__] for an object of a class of the file. *)
Definition class_name (a : Attr.t) : string :=
  match a with
  | Attr.Sequential => "Sequential"
  | Attr.HybridSequential => "HybridSequential"
  | Attr.Dense _ => "Dense"
  | Attr.Activation _ => "Activation"
  | Attr.Dropout _ => "Dropout"
  | Attr.BatchNorm _ => "BatchNorm"
  | Attr.LeakyReLU _ => "LeakyReLU"
  | Attr.Embedding _ => "Embedding"
  | Attr.Flatten => "Flatten"
  end.

(** The one-character string of a line feed, written as a backslash
    followed by n in Python. *)
Definition newline : string := String (Ascii.ascii_of_nat 10) EmptyString.

(** Keyword arguments every constructor forwards to [Block.__init__]. *)
Record kwargs := mkKwargs {
  kw_prefix : option string;
  kw_params : option ParameterDict.t
}.

Definition no_kwargs : kwargs := mkKwargs None None.

Module Block.
Section Methods.
Context {B : Type}.

(** Modelled from the spec: [Block.__init__] of [..block] (absent
  here).  Without a prefix the Block gets an auto-generated name;
  without a supplied ParameterDict it owns a fresh one under its
  prefix, otherwise it uses the supplied one.  It starts with no
  children. *)
Definition __init__ (hint : string) (kw : kwargs) : M B Block :=
fun w =>
  let prefix :=
    match kw_prefix kw with
    | Some p => p
    | None => hint +:+ pretty (length (heap w)) +:+ "_"
    end in
  let params :=
    match kw_params kw with
    | Some pd => pd
    | None => ParameterDict.empty prefix
    end in
  (Ok (mkBlock prefix params []), w).

End Methods.
End Block.

(** ** The classes of [basic_layers.py]

    In the methods below [invoke block x] stands for the call
    [block(x)], that is [Block.__call__], which belongs to [..block]. *)

Module Sequential.
Section Methods.
Context {B : Type}.
Variable invoke : ref -> tensor -> M B tensor.

Definition __init__ (kw : kwargs) : M B ref :=
base <- Block.__init__ "sequential" kw ;;
alloc (mkObj base Attr.Sequential).

(** [register_child] is the method the container inherits from
    [Block], in [..block]: it is not part of this file. *)
Variable register_child : ref -> ref -> M B unit.

Definition add (self : ref) (block : ref) : M B unit :=
register_child self block.

(** [for block in children: x = block(x)] and then [return x]. *)
Fixpoint for_block (children : list ref) (x : tensor) : M B tensor :=
match children with
| [] => ret x
| block :: rest => x' <- invoke block x ;; for_block rest x'
end.

Definition forward (self : ref) (x : tensor) : M B tensor :=
o <- deref self ;;
for_block (_children (base o)) x.

(** [_indent] belongs to [..utils]; [repr_block block] stands for the
    call [block.__repr__()]. *)
Variable _indent : string -> nat -> string.
Variable repr_block : ref -> M B string.

(** The list comprehension of [__repr__]: one entry per child, keyed by
    its position in [enumerate(self._children)].  Every object of the
    heap is a [Block], so the [isinstance] filter keeps every child. *)
Fixpoint modstr_entries (key : nat) (children : list ref)
  : M B (list string) :=
  match children with
  | [] => ret []
  | block :: rest =>
      r <- repr_block block ;;
      entries <- modstr_entries (S key) rest ;;
      ret (("  (" +:+ pretty key +:+ "): " +:+ _indent r 2) :: entries)
  end.

Definition __repr__ (self : ref) : M B string :=
  o <- deref self ;;
  entries <- modstr_entries 0 (_children (base o)) ;;
  let modstr := String.concat newline entries in
  ret (class_name (attrs o) +:+ "(" +:+ newline +:+ modstr +:+ newline +:+ ")").

End Methods.
End Sequential.

Module HybridSequential.
Section Methods.
Context {B : Type}.
Variable invoke : ref -> tensor -> M B tensor.

Definition __init__ (kw : kwargs) : M B ref :=
base <- Block.__init__ "hybridsequential" kw ;;
alloc (mkObj base Attr.HybridSequential).

(** [register_child] is the method the container inherits from
    [HybridBlock], in [..block]: it is not part of this file. *)
Variable register_child : ref -> ref -> M B unit.

Definition add (self : ref) (block : ref) : M B unit :=
register_child self block.

Fixpoint for_block (children : list ref) (x : tensor) : M B tensor :=
match children with
| [] => ret x
| block :: rest => x' <- invoke block x ;; for_block rest x'
end.

Definition hybrid_forward (self : ref) (F : Op.t B) (x : tensor)
: M B tensor :=
o <- deref self ;;
for_block (_children (base o)) x.

(** [_indent] belongs to [..utils]; [repr_block block] stands for the
    call [block.__repr__()]. *)
Variable _indent : string -> nat -> string.
Variable repr_block : ref -> M B string.

Fixpoint modstr_entries (key : nat) (children : list ref)
  : M B (list string) :=
  match children with
  | [] => ret []
  | block :: rest =>
      r <- repr_block block ;;
      entries <- modstr_entries (S key) rest ;;
      ret (("  (" +:+ pretty key +:+ "): " +:+ _indent r 2) :: entries)
  end.

Definition __repr__ (self : ref) : M B string :=
  o <- deref self ;;
  entries <- modstr_entries 0 (_children (base o)) ;;
  let modstr := String.concat newline entries in
  ret (class_name (attrs o) +:+ "(" +:+ newline +:+ modstr +:+ newline +:+ ")").

End Methods.
End HybridSequential.

Module Activation.
Section Methods.
Context {B : Type}.

(** Reading an attribute of another class raises AttributeError. *)
Definition self_ (self : ref) : M B Attr.Activation.t :=
o <- deref self ;;
match attrs o with
| Attr.Activation a => ret a
| _ => raise AttributeError
end.

Definition _alias (a : Attr.Activation.t) : string :=
Attr.Activation._act_type a.

Definition __init__ (activation : string) (kw : kwargs) : M B ref :=
let a := Attr.Activation.mk activation in
base <- Block.__init__ (_alias a) kw ;;
alloc (mkObj base (Attr.Activation a)).

Definition hybrid_forward (self : ref) (F : Op.t B) (x : tensor)
: M B tensor :=
a <- self_ self ;;
op (Op.Activation F x (Attr.Activation._act_type a)).

(** [s.format(name=self.__class__.__name__, **self.__dict__)] for
    [s = "{name}({_act_type})"]. *)
Definition __repr__ (self : ref) : M B string :=
  o <- deref self ;;
  a <- self_ self ;;
  ret (class_name (attrs o) +:+ "(" +:+ Attr.Activation._act_type a +:+ ")").

End Methods.
End Activation.

Module Dense.
Section Methods.
Context {B : Type}.
Variable invoke : ref -> tensor -> M B tensor.

Definition self_ (self : ref) : M B Attr.Dense.t :=
o <- deref self ;;
match attrs o with
| Attr.Dense d => ret d
| _ => raise AttributeError
end.

Definition default_bias_initializer : option string := Some "zeros".

(** [params.get] is called without [grad_req]: the Parameter gets the
  default gradient mode, trainable. *)
Definition __init__ (units : Z) (activation : option string)
(use_bias : bool) (weight_initializer bias_initializer : option string)
(in_units : Z) (kw : kwargs) : M B ref :=
base <- Block.__init__ "dense" kw ;;
w <- lift (ParameterDict.get (params base) "weight" "write"
             [units; in_units] weight_initializer true) ;;
b <- (if use_bias then
        b <- lift (ParameterDict.get (snd w) "bias" "write"
                     [units] bias_initializer true) ;;
        ret (Some "bias", snd b)
      else ret (None, snd w)) ;;
act <- match activation with
       | Some a => r <- Activation.__init__ a no_kwargs ;; ret (Some r)
       | None => ret None
       end ;;
alloc (mkObj (mkBlock (prefix base) (snd b) (_children base))
         (Attr.Dense (Attr.Dense.mk units in_units "weight" (fst b) act))).

Definition hybrid_forward (self : ref) (F : Op.t B) (x weight : tensor)
(bias : option tensor) : M B tensor :=
d <- self_ self ;;
act <- match bias with
       | None =>
           op (Op.FullyConnected F x weight None true (Attr.Dense._units d))
       | Some b =>
           op (Op.FullyConnected F x weight (Some b) false
                 (Attr.Dense._units d))
       end ;;
match Attr.Dense.act d with
| Some a => invoke a act
| None => ret act
end.

(** [repr_block a] stands for the text of the activation block in the
    format, [a.__repr__()]. *)
Variable repr_block : ref -> M B string.

(** [layout] is [in_units -> units], or [units] alone when [_in_units]
    is 0; [act] is the activation block, or [linear] without one. *)
Definition __repr__ (self : ref) : M B string :=
  o <- deref self ;;
  d <- self_ self ;;
  let layout :=
    if (Attr.Dense._in_units d =? 0)%Z
    then pretty (Attr.Dense._units d)
    else pretty (Attr.Dense._in_units d) +:+ " -> " +:+
         pretty (Attr.Dense._units d) in
  act <- match Attr.Dense.act d with
         | Some a => repr_block a
         | None => ret "linear"
         end ;;
  ret (class_name (attrs o) +:+ "(" +:+ layout +:+ ", " +:+ act +:+ ")").

End Methods.
End Dense.

Module Dropout.
Section Methods.
Context {B : Type}.

Definition self_ (self : ref) : M B Attr.Dropout.t :=
o <- deref self ;;
match attrs o with
| Attr.Dropout d => ret d
| _ => raise AttributeError
end.

Definition __init__ (rate : Q) (kw : kwargs) : M B ref :=
base <- Block.__init__ "dropout" kw ;;
alloc (mkObj base (Attr.Dropout (Attr.Dropout.mk rate))).

Definition hybrid_forward (self : ref) (F : Op.t B) (x : tensor)
: M B tensor :=
d <- self_ self ;;
op (Op.Dropout F x (Attr.Dropout._rate d)).

End Methods.
End Dropout.

Module BatchNorm.
Section Methods.
Context {B : Type}.

Definition self_ (self : ref) : M B Attr.BatchNorm.t :=
o <- deref self ;;
match attrs o with
| Attr.BatchNorm b => ret b
| _ => raise AttributeError
end.

Definition default_axis : Z := 1.
Definition default_momentum : Q := 9 # 10.
Definition default_epsilon : Q := 1 # 1000.

Definition __init__ (axis : Z) (momentum epsilon : Q) (center scale : bool)
(beta_initializer gamma_initializer : option string)
(running_mean_initializer running_variance_initializer : option string)
(in_channels : Z) (kw : kwargs) : M B ref :=
base <- Block.__init__ "batchnorm" kw ;;
let _kwargs : gmap string pyval :=
  <["axis" := PInt axis]>
    (<["eps" := PFloat epsilon]>
       (<["momentum" := PFloat momentum]>
          (<["fix_gamma" := PBool (negb center)]> ∅))) in
let in_channels_attr :=
  if (in_channels =? 0)%Z then None else Some in_channels in
g <- lift (ParameterDict.get (params base) "gamma"
             (if scale then "write" else "null")
             [in_channels] gamma_initializer true) ;;
b <- lift (ParameterDict.get (snd g) "beta"
             (if center then "write" else "null")
             [in_channels] beta_initializer true) ;;
m <- lift (ParameterDict.get (snd b) "running_mean" "null"
             [in_channels] running_mean_initializer true) ;;
v <- lift (ParameterDict.get (snd m) "running_var" "null"
             [in_channels] running_variance_initializer true) ;;
alloc (mkObj (mkBlock (prefix base) (snd v) (_children base))
         (Attr.BatchNorm
            (Attr.BatchNorm.mk _kwargs in_channels_attr
               "gamma" "beta" "running_mean" "running_var"))).

Definition hybrid_forward (self : ref) (F : Op.t B)
(x gamma beta running_mean running_var : tensor) : M B tensor :=
b <- self_ self ;;
op (Op.BatchNorm F x gamma beta running_mean running_var
      (Attr.BatchNorm._kwargs b)).

End Methods.
End BatchNorm.

Module LeakyReLU.
Section Methods.
Context {B : Type}.

Definition self_ (self : ref) : M B Attr.LeakyReLU.t :=
o <- deref self ;;
match attrs o with
| Attr.LeakyReLU l => ret l
| _ => raise AttributeError
end.

Definition __init__ (alpha : Q) (kw : kwargs) : M B ref :=
base <- Block.__init__ "leakyrelu" kw ;;
alloc (mkObj base (Attr.LeakyReLU (Attr.LeakyReLU.mk alpha))).

Definition hybrid_forward (self : ref) (F : Op.t B) (x : tensor)
: M B tensor :=
l <- self_ self ;;
op (Op.LeakyReLU F x "leaky" (Attr.LeakyReLU._alpha l)).

End Methods.
End LeakyReLU.

Module Embedding.
Section Methods.
Context {B : Type}.

Definition self_ (self : ref) : M B Attr.Embedding.t :=
o <- deref self ;;
match attrs o with
| Attr.Embedding e => ret e
| _ => raise AttributeError
end.

Definition default_dtype : string := "float32".

Definition __init__ (input_dim output_dim : Z) (dtype : string)
(weight_initializer : option string) (kw : kwargs) : M B ref :=
base <- Block.__init__ "embedding" kw ;;
let _kwargs : gmap string pyval :=
  <["input_dim" := PInt input_dim]>
    (<["output_dim" := PInt output_dim]>
       (<["dtype" := PStr dtype]> ∅)) in
w <- lift (ParameterDict.get (params base) "weight" "write"
             [input_dim; output_dim] weight_initializer true) ;;
alloc (mkObj (mkBlock (prefix base) (snd w) (_children base))
         (Attr.Embedding (Attr.Embedding.mk _kwargs "weight"))).

Definition hybrid_forward (self : ref) (F : Op.t B) (x weight : tensor)
: M B tensor :=
e <- self_ self ;;
op (Op.Embedding F x weight (Attr.Embedding._kwargs e)).

End Methods.
End Embedding.

Module Flatten.
Section Methods.
Context {B : Type}.

Definition __init__ (kw : kwargs) : M B ref :=
base <- Block.__init__ "flatten" kw ;;
alloc (mkObj base Attr.Flatten).

Definition hybrid_forward (self : ref) (F : Op.t B) (x : tensor)
: M B tensor :=
lift (reshape x [0; -1]%Z).

Definition __repr__ (self : ref) : M B string :=
  o <- deref self ;;
  ret (class_name (attrs o)).

End Methods.
End Flatten.

(** ** The graph-building namespace [mxnet.symbol]

    Modelled from the spec: bound to the symbolic backend, an operator
    of [F] only adds a node to the graph: no shape is looked at while
    the graph is traced.  A concrete array among the inputs of a
    symbolic operator is a TypeError. *)
Module symbol.

Definition as_symbol (x : tensor) : result Symbol :=
  match x with
  | sym s => Ok s
  | nd _ => Raise TypeError
  end.

Fixpoint as_symbols (xs : list tensor) : result (list Symbol) :=
  match xs with
  | [] => Ok []
  | x :: xs' => s <~ as_symbol x ;; ss <~ as_symbols xs' ;; Ok (s :: ss)
  end.

Definition node (opname : string) (inputs : list tensor)
  (attrs : gmap string pyval) : result tensor :=
  ss <~ as_symbols inputs ;; Ok (sym (Apply opname ss attrs)).

Definition F {B : Type} : Op.t B :=
  Op.mk B
    (fun x weight bias no_bias num_hidden b =>
       (node "FullyConnected" (x :: weight :: option_list bias)
          (<["no_bias" := PBool no_bias]>
             (<["num_hidden" := PInt num_hidden]> ∅)), b))
    (fun x act_type b =>
       (node "Activation" [x] (<["act_type" := PStr act_type]> ∅), b))
    (fun x p b => (node "Dropout" [x] (<["p" := PFloat p]> ∅), b))
    (fun x gamma beta running_mean running_var kw b =>
       (node "BatchNorm" [x; gamma; beta; running_mean; running_var] kw, b))
    (fun x act_type slope b =>
       (node "LeakyReLU" [x]
          (<["act_type" := PStr act_type]>
             (<["slope" := PFloat slope]> ∅)), b))
    (fun x weight kw b => (node "Embedding" [x; weight] kw, b)).

End symbol.

(** ** Invoking a block

    Modelled from the spec: [Block.__call__] and [HybridBlock.forward]
    of [..block] (absent here).  A call first resolves the deferred
    shapes of the block's own Parameters against the shape of the input
    and materializes them, then runs the body of the block with [F]
    bound by the class of the input: the eager namespace for an array,
    [symbol] for a symbol.  The graph cache is not modelled.  The
    recursion through the children is bounded the way Python bounds its
    stack. *)
Section Call.
Context {B : Type}.
(** The eager namespace [mxnet.ndarray] and the initializer
    procedure, both external. *)
Variable ndarray : Op.t B.
Variable initializer : option string -> list Z -> NDArray.t.

Definition namespace (x : tensor) : Op.t B :=
  match x with
  | nd _ => ndarray
  | sym _ => symbol.F
  end.

(** What the input shape says about the shapes of the Parameters:
    for [Dense] the weight is [(units, last dimension of the input)],
    for [BatchNorm] every Parameter has the size of the input along
    the configured axis. *)
Definition infer_shape (a : Attr.t) (xshape : list Z)
  : result (list (string * list Z)) :=
  match a with
  | Attr.Dense d =>
      match last xshape with
      | Some f =>
          Ok ((Attr.Dense.weight d, [Attr.Dense._units d; f]) ::
              match Attr.Dense.bias d with
              | Some b => [(b, [Attr.Dense._units d])]
              | None => []
              end)
      | None => Raise InferenceError
      end
  | Attr.BatchNorm b =>
      match Attr.BatchNorm._kwargs b !! "axis" with
      | Some (PInt axis) =>
          match xshape !! Z.to_nat axis with
          | Some c =>
              Ok [(Attr.BatchNorm.gamma b, [c]);
                  (Attr.BatchNorm.beta b, [c]);
                  (Attr.BatchNorm.running_mean b, [c]);
                  (Attr.BatchNorm.running_var b, [c])]
          | None => Raise InferenceError
          end
      | _ => Raise InferenceError
      end
  | _ => Ok []
  end.

Fixpoint resolve_all (pd : ParameterDict.t)
  (observed : list (string * list Z)) : result ParameterDict.t :=
  match observed with
  | [] => Ok pd
  | (key, dims) :: rest =>
      match ParameterDict.lookup pd key with
      | Some p =>
          p' <~ Param.resolve_shape p dims ;;
          resolve_all (ParameterDict.update pd key p') rest
      | None => Raise AttributeError
      end
  end.

(** Modelled from the spec: [materialize()] fills [data] through the
    initializer once the shape is fully known, does nothing if the
    data is there, leaves a deferrable Parameter with an unresolved
    shape deferred and fails with NotDeferrable for one that is not
    deferrable. *)
Definition materialize (p : Param.t) : result Param.t :=
  match Param.data p with
  | Some _ => Ok p
  | None =>
      if Param.unknown (Param.shape p) then
        if Param.allow_deferred_init p then Ok p else Raise NotDeferrable
      else
        Ok (Param.mk (Param.name p) (Param.grad_req p) (Param.shape p)
              (Param.init p) (Param.allow_deferred_init p)
              (Some (initializer (Param.init p) (Param.shape p))))
  end.

Fixpoint materialize_all (m : list (string * Param.t))
  : result (list (string * Param.t)) :=
  match m with
  | [] => Ok []
  | (k, p) :: m' =>
      p' <~ materialize p ;;
      rest <~ materialize_all m' ;;
      Ok ((k, p') :: rest)
  end.

Definition prepare (self : ref) (x : tensor) : M B unit :=
  match x with
  | sym _ => ret tt
  | nd a =>
      o <- deref self ;;
      observed <- lift (infer_shape (attrs o) (NDArray.shape a)) ;;
      pd <- lift (resolve_all (params (base o)) observed) ;;
      m <- lift (materialize_all (ParameterDict.mapping pd)) ;;
      store self
        (mkObj (mkBlock (prefix (base o))
                  (ParameterDict.mk (ParameterDict.prefix pd) m)
                  (_children (base o)))
           (attrs o))
  end.

(** The value of a Parameter handed to [hybrid_forward]: its data in
    eager mode, a variable of its name while tracing. *)
Definition param_value (self : ref) (x : tensor) (key : string)
  : M B tensor :=
  o <- deref self ;;
  match ParameterDict.lookup (params (base o)) key with
  | None => raise AttributeError
  | Some p =>
      match x with
      | sym _ => ret (sym (Var (Param.name p) None))
      | nd _ =>
          match Param.data p with
          | Some a => ret (nd a)
          | None => raise DeferredInitializationError
          end
      end
  end.

Fixpoint call (fuel : nat) (self : ref) (x : tensor) : M B tensor :=
  match fuel with
  | O => raise RecursionError
  | S n =>
      o <- deref self ;;
      match attrs o with
      | Attr.Sequential => Sequential.forward (call n) self x
      | Attr.HybridSequential =>
          HybridSequential.hybrid_forward (call n) self (namespace x) x
      | Attr.Dense d =>
          _ <- prepare self x ;;
          weight <- param_value self x (Attr.Dense.weight d) ;;
          bias <- match Attr.Dense.bias d with
                  | Some b => v <- param_value self x b ;; ret (Some v)
                  | None => ret None
                  end ;;
          Dense.hybrid_forward (call n) self (namespace x) x weight bias
      | Attr.Activation _ => Activation.hybrid_forward self (namespace x) x
      | Attr.Dropout _ => Dropout.hybrid_forward self (namespace x) x
      | Attr.BatchNorm b =>
          _ <- prepare self x ;;
          gamma <- param_value self x (Attr.BatchNorm.gamma b) ;;
          beta <- param_value self x (Attr.BatchNorm.beta b) ;;
          running_mean <- param_value self x (Attr.BatchNorm.running_mean b) ;;
          running_var <- param_value self x (Attr.BatchNorm.running_var b) ;;
          BatchNorm.hybrid_forward self (namespace x) x
            gamma beta running_mean running_var
      | Attr.LeakyReLU _ => LeakyReLU.hybrid_forward self (namespace x) x
      | Attr.Embedding e =>
          _ <- prepare self x ;;
          weight <- param_value self x (Attr.Embedding.weight e) ;;
          Embedding.hybrid_forward self (namespace x) x weight
      | Attr.Flatten => Flatten.hybrid_forward self (namespace x) x
      end
  end.

End Call.

(** ** The text of a block

    The call [block.__repr__()], dispatched on the class of the block.
    The texts of [Dropout], [BatchNorm], [LeakyReLU] and [Embedding]
    depend on how Python formats a float or on the order in which it
    iterates a dict: they are taken from outside. *)
Section Repr.
Context {B : Type}.
Variable _indent : string -> nat -> string.
Variable repr_other : Obj -> string.

Fixpoint repr (fuel : nat) (self : ref) : M B string :=
  match fuel with
  | O => raise RecursionError
  | S n =>
      o <- deref self ;;
      match attrs o with
      | Attr.Sequential => Sequential.__repr__ _indent (repr n) self
      | Attr.HybridSequential => HybridSequential.__repr__ _indent (repr n) self
      | Attr.Dense _ => Dense.__repr__ (repr n) self
      | Attr.Activation _ => Activation.__repr__ self
      | Attr.Flatten => Flatten.__repr__ self
      | _ => ret (repr_other o)
      end
  end.

End Repr.

(** The line of a container's text for the child registered at position
    [key] whose own text is [r]. *)
Definition modstr_entry (_indent : string -> nat -> string) (key : nat)
  (r : string) : string :=
  "  (" +:+ pretty key +:+ "): " +:+ _indent r 2.

(** ** Reading the heap *)

Definition children_of {B : Type} (w : World B) (self : ref)
  : option (list ref) :=
  match heap w !! self with
  | Some o => Some (_children (base o))
  | None => None
  end.

Definition params_of {B : Type} (w : World B) (self : ref)
  : option ParameterDict.t :=
  match heap w !! self with
  | Some o => Some (params (base o))
  | None => None
  end.

Definition param_of {B : Type} (w : World B) (self : ref) (key : string)
  : option Param.t :=
  match params_of w self with
  | Some pd => ParameterDict.lookup pd key
  | None => None
  end.

Definition attrs_of {B : Type} (w : World B) (self : ref) : option Attr.t :=
  match heap w !! self with
  | Some o => Some (attrs o)
  | None => None
  end.

(** One step of a fold through the children: feed the result so far to
    the next child. *)
Definition step {B : Type} (invoke : ref -> tensor -> M B tensor)
  (acc : M B tensor) (block : ref) : M B tensor :=
  y <- acc ;; invoke block y.

(** The blocks the forward of an object invokes: its children and, for
    a [Dense], its activation. *)
Definition callees (o : Obj) : list ref :=
  _children (base o) ++
  match attrs o with
  | Attr.Dense d => option_list (Attr.Dense.act d)
  | _ => []
  end.

(** A computation keeps a property of the heap, whether it returns or
    raises. *)
Definition keeps {B A : Type} (I : list Obj -> Prop) (m : M B A) : Prop :=
  forall w, I (heap w) -> I (heap (snd (m w))).

(** The heap holds the object [o] at [r]: base attributes (children,
    ParameterDict) and class attributes alike. *)
Definition holds (r : ref) (o : Obj) : list Obj -> Prop :=
  fun h => h !! r = Some o.

(** The heap is exactly [h]. *)
Definition heap_is (h : list Obj) : list Obj -> Prop :=
  fun h' => h' = h.

(** The ParameterDict supplied to a constructor, if any, registers none
    of the names. *)
Definition unregistered (kw : kwargs) (names : list string) : Prop :=
  match kw_params kw with
  | None => True
  | Some pd => Forall (fun n => ParameterDict.lookup pd n = None) names
  end.

(** The classes that register no Parameter. *)
Definition param_free (o : Obj) : Prop :=
  match attrs o with
  | Attr.Dense _ | Attr.BatchNorm _ | Attr.Embedding _ => False
  | _ => True
  end.

(** ** A small engine for the examples

    The element-wise operators with their inference-mode meaning on
    arrays; the operators that need linear algebra or statistics are
    not available in it. *)
Module example.

Definition relu (q : Q) : Q := if Qle_bool 0 q then q else 0.

Definition leaky (slope q : Q) : Q := if Qle_bool 0 q then q else slope * q.

Definition elementwise (opname : string) (f : Q -> Q) (x : tensor)
  : result tensor :=
  match x with
  | nd a => Ok (nd (NDArray.mk (NDArray.shape a) (map f (NDArray.data a))))
  | sym _ => Raise TypeError
  end.

Definition ndarray : Op.t unit :=
  Op.mk unit
    (fun _ _ _ _ _ b => (Raise (MXNetError "FullyConnected"), b))
    (fun x act_type b =>
       (if String.eqb act_type "relu" then elementwise "Activation" relu x
        else Raise (MXNetError "Activation"), b))
    (fun x p b => (elementwise "Dropout" (fun q => q) x, b))
    (fun _ _ _ _ _ _ b => (Raise (MXNetError "BatchNorm"), b))
    (fun x act_type slope b => (elementwise "LeakyReLU" (leaky slope) x, b))
    (fun _ _ _ b => (Raise (MXNetError "Embedding"), b)).

Definition initializer (init : option string) (dims : list Z) : NDArray.t :=
  NDArray.mk dims
    (repeat (match init with Some "ones" => 1 | _ => 0 end)%Q
       (Z.to_nat (NDArray.size dims))).

Definition empty : World unit := mkWorld [] tt.

Definition world_after {A} (m : M unit A) : World unit := snd (m empty).

(** A layer without Parameters and with the children [cs]. *)
Definition object (name : string) (cs : list ref) (a : Attr.t) : Obj :=
  mkObj (mkBlock name (ParameterDict.empty name) cs) a.

(** A heap of seven layers.  Object 0 is a [Sequential] whose children
    are the objects 1, 2 and 3: a [Flatten], an [Activation] with
    [relu] and a [Dropout] with the rate 0.5.  Object 4 is a
    [HybridSequential] with the same children.  Object 6 is a
    [Sequential] whose children are object 5, a [LeakyReLU], and the
    container 0. *)
Definition world : World unit :=
  mkWorld
    [object "sequential0_" [1; 2; 3] Attr.Sequential;
     object "flatten1_" [] Attr.Flatten;
     object "relu2_" [] (Attr.Activation (Attr.Activation.mk "relu"));
     object "dropout3_" [] (Attr.Dropout (Attr.Dropout.mk (1 # 2)));
     object "hybridsequential4_" [1; 2; 3] Attr.HybridSequential;
     object "leakyrelu5_" [] (Attr.LeakyReLU (Attr.LeakyReLU.mk (1 # 10)));
     object "sequential6_" [5; 0] Attr.Sequential]
    tt.

Definition x222 : NDArray.t :=
  NDArray.mk [2; 2; 2]%Z [1; -2; 3; -4; 5; -6; 7; -8]%Q.

End example.

(** * Properties *)

(** ** Laws of the monad *)

Section MonadLaws.
Context {B : Type}.

Lemma bind_ret_l {A C} (a : A) (k : A -> M B C) (w : World B) :
  bind (ret a) k w = k a w.
Proof. reflexivity. Qed.

Lemma bind_ret_r {A} (m : M B A) (w : World B) :
  bind m ret w = m w.
Proof. unfold bind, ret. destruct (m w) as [[a|e] w']; reflexivity. Qed.

Lemma bind_assoc {A C D} (m : M B A) (k : A -> M B C) (h : C -> M B D)
  (w : World B) :
  bind (bind m k) h w = bind m (fun a => bind (k a) h) w.
Proof. unfold bind. destruct (m w) as [[a|e] w']; reflexivity. Qed.

Lemma bind_ext {A C} (m : M B A) (k k' : A -> M B C) (w : World B) :
  (forall a w', k a w' = k' a w') -> bind m k w = bind m k' w.
Proof.
  intros Hk. unfold bind. destruct (m w) as [[a|e] w']; [apply Hk | reflexivity].
Qed.

Lemma deref_lookup (self : ref) (o : Obj) (w : World B) :
  heap w !! self = Some o -> deref self w = (Ok o, w).
Proof. intros H. unfold deref. rewrite H. reflexivity. Qed.

End MonadLaws.

(** ** The containers *)

Section Containers.
Context {B : Type}.
Variable invoke : ref -> tensor -> M B tensor.

Lemma Sequential_for_block_fold (cs : list ref) (m : M B tensor) (w : World B) :
  fold_left (step invoke) cs m w = bind m (Sequential.for_block invoke cs) w.
Proof.
  revert m w. induction cs as [|c cs IH]; intros m w; simpl.
  - symmetry. apply bind_ret_r.
  - rewrite IH. unfold step. apply bind_assoc.
Qed.

Lemma HybridSequential_for_block_fold (cs : list ref) (m : M B tensor)
  (w : World B) :
  fold_left (step invoke) cs m w = bind m (HybridSequential.for_block invoke cs) w.
Proof.
  revert m w. induction cs as [|c cs IH]; intros m w; simpl.
  - symmetry. apply bind_ret_r.
  - rewrite IH. unfold step. apply bind_assoc.
Qed.

Lemma for_block_same (cs : list ref) (x : tensor) (w : World B) :
  Sequential.for_block invoke cs x w = HybridSequential.for_block invoke cs x w.
Proof.
  revert x w. induction cs as [|c cs IH]; intros x w; simpl.
  - reflexivity.
  - apply bind_ext. exact IH.
Qed.

Lemma Sequential_forward_children (self : ref) (cs : list ref) (x : tensor)
  (w : World B) :
  children_of w self = Some cs ->
  Sequential.forward invoke self x w = Sequential.for_block invoke cs x w.
Proof.
  unfold children_of, Sequential.forward. intros H.
  destruct (heap w !! self) as [o|] eqn:Ho; [|discriminate].
  injection H as <-. unfold bind. rewrite (deref_lookup _ _ _ Ho). reflexivity.
Qed.

Lemma HybridSequential_forward_children (self : ref) (F : Op.t B)
  (cs : list ref) (x : tensor) (w : World B) :
  children_of w self = Some cs ->
  HybridSequential.hybrid_forward invoke self F x w
  = HybridSequential.for_block invoke cs x w.
Proof.
  unfold children_of, HybridSequential.hybrid_forward. intros H.
  destruct (heap w !! self) as [o|] eqn:Ho; [|discriminate].
  injection H as <-. unfold bind. rewrite (deref_lookup _ _ _ Ho). reflexivity.
Qed.

Lemma for_block_pure (f : ref -> tensor -> tensor) (cs : list ref)
  (x : tensor) (w : World B) :
  (forall c y w', invoke c y w' = (Ok (f c y), w')) ->
  Sequential.for_block invoke cs x w
  = (Ok (fold_left (fun y c => f c y) cs x), w).
Proof.
  intros Hf. revert x w. induction cs as [|c cs IH]; intros x w; simpl.
  - reflexivity.
  - unfold bind. rewrite Hf. apply IH.
Qed.

End Containers.

(** C1. A [Sequential] (and likewise a [HybridSequential]) whose
    registered children are [cs] folds its input through the children
    in registration order.  With the children [a; b; c] the call is the
    composition [c(b(a(x)))], effects and failures of the children
    included; when the children compute pure functions the value is
    exactly [f c (f b (f a x))]. *)
Theorem Sequential_composition_law {B : Type}
  (invoke : ref -> tensor -> M B tensor) (F : Op.t B)
  (self : ref) (cs : list ref) (x : tensor) (w : World B) :
  children_of w self = Some cs ->
  (Sequential.forward invoke self x w = fold_left (step invoke) cs (ret x) w /\
   HybridSequential.hybrid_forward invoke self F x w
   = fold_left (step invoke) cs (ret x) w) /\
  (forall a b c, cs = [a; b; c] ->
     Sequential.forward invoke self x w
     = (ya <- invoke a x ;; yb <- invoke b ya ;; invoke c yb) w /\
     HybridSequential.hybrid_forward invoke self F x w
     = (ya <- invoke a x ;; yb <- invoke b ya ;; invoke c yb) w) /\
  (forall f : ref -> tensor -> tensor,
     (forall c y w', invoke c y w' = (Ok (f c y), w')) ->
     Sequential.forward invoke self x w
     = (Ok (fold_left (fun y c => f c y) cs x), w) /\
     HybridSequential.hybrid_forward invoke self F x w
     = (Ok (fold_left (fun y c => f c y) cs x), w) /\
     forall a b c, cs = [a; b; c] ->
       Sequential.forward invoke self x w = (Ok (f c (f b (f a x))), w) /\
       HybridSequential.hybrid_forward invoke self F x w
       = (Ok (f c (f b (f a x))), w)).
Proof.
  intros Hcs.
  pose proof (Sequential_forward_children invoke self cs x w Hcs) as HS.
  pose proof (HybridSequential_forward_children invoke self F cs x w Hcs) as HH.
  rewrite HS, HH.
  split; [|split].
  - split.
    + rewrite Sequential_for_block_fold. reflexivity.
    + rewrite HybridSequential_for_block_fold. reflexivity.
  - intros a b c ->. simpl. split.
    + apply bind_ext. intros ya w1. apply bind_ext. intros yb w2.
      apply bind_ret_r.
    + apply bind_ext. intros ya w1. apply bind_ext. intros yb w2.
      apply bind_ret_r.
  - intros f Hf.
    pose proof (for_block_pure invoke f cs x w Hf) as HP.
    assert (HQ : HybridSequential.for_block invoke cs x w
                 = (Ok (fold_left (fun y c => f c y) cs x), w))
      by (rewrite <- for_block_same; exact HP).
    split; [exact HP|]. split; [exact HQ|].
    intros a b c Hc. rewrite HP, HQ. rewrite Hc. split; reflexivity.
Qed.

(** The container of the example has the children 1, 2 and 3; called
    on an array it flattens, rectifies and (in inference mode) keeps
    the elements. *)
Lemma Sequential_composition_law_witness :
  let w := example.world in
  let invoke := call example.ndarray example.initializer 5 in
  children_of w 0 = Some [1; 2; 3] /\
  Sequential.forward invoke 0 (nd example.x222) w
  = (ya <- invoke 1 (nd example.x222) ;; yb <- invoke 2 ya ;; invoke 3 yb) w /\
  fst (Sequential.forward invoke 0 (nd example.x222) w)
  = Ok (nd (NDArray.mk [2; 4]%Z [1; 0; 3; 0; 5; 0; 7; 0]%Q)).
Proof.
  intros w invoke.
  assert (Hcs : children_of w 0 = Some [1; 2; 3]) by reflexivity.
  split; [exact Hcs|]. split.
  - exact (proj1 (proj1 (proj2 (Sequential_composition_law invoke
             example.ndarray 0 [1; 2; 3] (nd example.x222) w Hcs))
             1 2 3 eq_refl)).
  - vm_compute. reflexivity.
Defined.

(** C9. [Sequential.forward] and [HybridSequential.hybrid_forward] are
    the same fold: on the same ordered children and the same input they
    give the same result and the same effects; the result of
    [hybrid_forward] does not depend on the namespace [F]. *)
Theorem Sequential_HybridSequential_same_fold {B : Type}
  (invoke : ref -> tensor -> M B tensor) (F F' : Op.t B)
  (s h : ref) (cs : list ref) (x : tensor) (w : World B) :
  children_of w s = Some cs ->
  children_of w h = Some cs ->
  Sequential.forward invoke s x w
  = HybridSequential.hybrid_forward invoke h F x w /\
  (forall self' x' w',
     HybridSequential.hybrid_forward invoke self' F x' w'
     = HybridSequential.hybrid_forward invoke self' F' x' w').
Proof.
  intros Hs Hh. split.
  - rewrite (Sequential_forward_children invoke s cs x w Hs).
    rewrite (HybridSequential_forward_children invoke h F cs x w Hh).
    apply for_block_same.
  - intros self' x' w'. reflexivity.
Qed.

Lemma Sequential_HybridSequential_same_fold_witness :
  let w := example.world in
  let invoke := call example.ndarray example.initializer 5 in
  children_of w 0 = Some [1; 2; 3] /\
  children_of w 4 = Some [1; 2; 3] /\
  Sequential.forward invoke 0 (nd example.x222) w
  = HybridSequential.hybrid_forward invoke 4 symbol.F (nd example.x222) w.
Proof.
  intros w invoke.
  assert (H0 : children_of w 0 = Some [1; 2; 3]) by reflexivity.
  assert (H4 : children_of w 4 = Some [1; 2; 3]) by reflexivity.
  split; [exact H0|]. split; [exact H4|].
  exact (proj1 (Sequential_HybridSequential_same_fold invoke symbol.F
                  example.ndarray 0 4 [1; 2; 3] (nd example.x222) w H0 H4)).
Defined.

(** ** Frame: what a forward does not write *)

Section Frame.
Context {B : Type}.
Variable I : list Obj -> Prop.

Lemma keeps_ret {A} (a : A) : keeps (B := B) I (ret a).
Proof. intros w H. exact H. Qed.

Lemma keeps_raise {A} (e : exn) : keeps (B := B) (A := A) I (raise e).
Proof. intros w H. exact H. Qed.

Lemma keeps_lift {A} (res : result A) : keeps (B := B) I (lift res).
Proof. intros w H. exact H. Qed.

Lemma keeps_op {A} (f : B -> result A * B) : keeps I (op f).
Proof. intros w H. unfold op. destruct (f (engine w)). exact H. Qed.

Lemma keeps_deref (c : ref) : keeps (B := B) I (deref c).
Proof. intros w H. unfold deref. destruct (heap w !! c); exact H. Qed.

Lemma keeps_bind {A C} (m : M B A) (k : A -> M B C) :
  keeps I m -> (forall a, keeps I (k a)) -> keeps I (bind m k).
Proof.
  intros Hm Hk w H. unfold bind. specialize (Hm w H).
  destruct (m w) as [[a|e] w']; simpl in *.
  - apply Hk. exact Hm.
  - exact Hm.
Qed.

End Frame.

Lemma keeps_store {B : Type} (r c : ref) (o o' : Obj) :
  c <> r -> keeps (B := B) (holds r o) (store c o').
Proof.
  intros Hc w H. unfold store, holds. simpl.
  rewrite list_lookup_insert_ne; [exact H | exact Hc].
Qed.

Ltac frame :=
  repeat first
    [ apply keeps_ret | apply keeps_raise | apply keeps_lift
    | apply keeps_op | apply keeps_deref
    | apply keeps_bind; [|intros ?]
    | match goal with
      | |- keeps _ (match ?x with _ => _ end) => destruct x
      end ].

(** Frame rules of the methods, for any property [I] of the heap. *)
Section FrameMethods.
Context {B : Type}.
Variable invoke : ref -> tensor -> M B tensor.
Variable I : list Obj -> Prop.

Lemma Sequential_for_block_keeps (cs : list ref) (x : tensor) :
  (forall c y, In c cs -> keeps I (invoke c y)) ->
  keeps I (Sequential.for_block invoke cs x).
Proof.
  revert x. induction cs as [|c cs IH]; intros x Hinv; simpl.
  - apply keeps_ret.
  - apply keeps_bind.
    + apply Hinv. left. reflexivity.
    + intros y. apply IH. intros c' y' Hc'. apply Hinv. right. exact Hc'.
Qed.

Lemma HybridSequential_for_block_keeps (cs : list ref) (x : tensor) :
  (forall c y, In c cs -> keeps I (invoke c y)) ->
  keeps I (HybridSequential.for_block invoke cs x).
Proof.
  revert x. induction cs as [|c cs IH]; intros x Hinv; simpl.
  - apply keeps_ret.
  - apply keeps_bind.
    + apply Hinv. left. reflexivity.
    + intros y. apply IH. intros c' y' Hc'. apply Hinv. right. exact Hc'.
Qed.

Lemma Sequential_forward_keeps_any (self : ref) (x : tensor) :
  (forall c y, keeps I (invoke c y)) ->
  keeps I (Sequential.forward invoke self x).
Proof.
  intros Hinv. unfold Sequential.forward. frame.
  apply Sequential_for_block_keeps. intros c y _. apply Hinv.
Qed.

Lemma HybridSequential_hybrid_forward_keeps_any (self : ref)
  (F : Op.t B) (x : tensor) :
  (forall c y, keeps I (invoke c y)) ->
  keeps I (HybridSequential.hybrid_forward invoke self F x).
Proof.
  intros Hinv. unfold HybridSequential.hybrid_forward. frame.
  apply HybridSequential_for_block_keeps. intros c y _. apply Hinv.
Qed.

Lemma Dense_hybrid_forward_keeps_any (self : ref) (F : Op.t B)
  (x weight : tensor) (bias : option tensor) :
  (forall c y, keeps I (invoke c y)) ->
  keeps I (Dense.hybrid_forward invoke self F x weight bias).
Proof.
  intros Hinv. unfold Dense.hybrid_forward, Dense.self_. frame; apply Hinv.
Qed.

(** The leaf layers invoke no block at all. *)
Lemma Activation_hybrid_forward_keeps (self : ref) (F : Op.t B) (x : tensor) :
  keeps I (Activation.hybrid_forward self F x).
Proof. unfold Activation.hybrid_forward, Activation.self_. frame. Qed.

Lemma Dropout_hybrid_forward_keeps (self : ref) (F : Op.t B) (x : tensor) :
  keeps I (Dropout.hybrid_forward self F x).
Proof. unfold Dropout.hybrid_forward, Dropout.self_. frame. Qed.

Lemma BatchNorm_hybrid_forward_keeps (self : ref) (F : Op.t B)
  (x gamma beta running_mean running_var : tensor) :
  keeps I
    (BatchNorm.hybrid_forward self F x gamma beta running_mean running_var).
Proof. unfold BatchNorm.hybrid_forward, BatchNorm.self_. frame. Qed.

Lemma LeakyReLU_hybrid_forward_keeps (self : ref) (F : Op.t B) (x : tensor) :
  keeps I (LeakyReLU.hybrid_forward self F x).
Proof. unfold LeakyReLU.hybrid_forward, LeakyReLU.self_. frame. Qed.

Lemma Embedding_hybrid_forward_keeps (self : ref) (F : Op.t B)
  (x weight : tensor) :
  keeps I (Embedding.hybrid_forward self F x weight).
Proof. unfold Embedding.hybrid_forward, Embedding.self_. frame. Qed.

Lemma Flatten_hybrid_forward_keeps (self : ref) (F : Op.t B) (x : tensor) :
  keeps I (Flatten.hybrid_forward self F x).
Proof. unfold Flatten.hybrid_forward. frame. Qed.

Lemma param_value_keeps (self : ref) (x : tensor) (key : string) :
  keeps I (param_value (B := B) self x key).
Proof. unfold param_value. frame. Qed.

End FrameMethods.

(** A method run on the object [o] itself invokes the callees of [o]. *)
Section FrameSelf.
Context {B : Type}.
Variable invoke : ref -> tensor -> M B tensor.
Variables (r : ref) (o : Obj).

Lemma Sequential_forward_keeps (x : tensor) :
  (forall c y, In c (_children (base o)) -> keeps (holds r o) (invoke c y)) ->
  keeps (holds r o) (Sequential.forward invoke r x).
Proof.
  intros Hinv w H. unfold Sequential.forward, bind.
  rewrite (deref_lookup _ _ _ H).
  apply Sequential_for_block_keeps; assumption.
Qed.

Lemma HybridSequential_hybrid_forward_keeps (F : Op.t B) (x : tensor) :
  (forall c y, In c (_children (base o)) -> keeps (holds r o) (invoke c y)) ->
  keeps (holds r o) (HybridSequential.hybrid_forward invoke r F x).
Proof.
  intros Hinv w H. unfold HybridSequential.hybrid_forward, bind.
  rewrite (deref_lookup _ _ _ H).
  apply HybridSequential_for_block_keeps; assumption.
Qed.

Lemma Dense_hybrid_forward_keeps (F : Op.t B) (x weight : tensor)
  (bias : option tensor) :
  (forall c y, In c (callees o) -> keeps (holds r o) (invoke c y)) ->
  keeps (holds r o) (Dense.hybrid_forward invoke r F x weight bias).
Proof.
  intros Hinv w H. unfold Dense.hybrid_forward, Dense.self_, bind at 1 2.
  rewrite (deref_lookup _ _ _ H).
  destruct (attrs o) as [| |d| | | | | |] eqn:Ha; try exact H.
  simpl. revert w H. fold (keeps (B := B) (A := tensor) (holds r o)).
  apply keeps_bind.
  - destruct bias; apply keeps_op.
  - intros act. destruct (Attr.Dense.act d) as [a|] eqn:Hact.
    + apply Hinv. unfold callees. rewrite Ha, Hact. apply in_or_app.
      right. left. reflexivity.
    + apply keeps_ret.
Qed.

End FrameSelf.

(** The dispatch of a call writes only to blocks that own Parameters
    (when it resolves and materializes them): an object of a class
    without Parameters is kept by every call in every world. *)
Section FrameCall.
Context {B : Type}.
Variable ndarray : Op.t B.
Variable initializer : option string -> list Z -> NDArray.t.
Variables (r : ref) (o : Obj).

Lemma prepare_keeps (self : ref) (x : tensor) :
  self <> r -> keeps (holds r o) (prepare (B := B) initializer self x).
Proof.
  intros Hne. unfold prepare. destruct x; frame.
  apply keeps_store. exact Hne.
Qed.

Lemma call_keeps_param_free (fuel : nat) (c : ref) (x : tensor) :
  param_free o -> keeps (holds r o) (call ndarray initializer fuel c x).
Proof.
  intros Hfree. revert c x.
  induction fuel as [|n IH]; intros c x; simpl.
  - apply keeps_raise.
  - intros w H. unfold bind at 1, deref at 1.
    destruct (heap w !! c) as [oc|] eqn:Hc; [|exact H].
    assert (Hne : ~ param_free oc -> c <> r).
    { intros Hoc ->. rewrite H in Hc. injection Hc as <-. tauto. }
    revert w H Hc. fold (keeps (B := B) (A := tensor) (holds r o)).
    unfold param_free in Hne.
    destruct (attrs oc) as [| |d|a|d|b|l|e|]; intros w H _; revert w H.
    + apply Sequential_forward_keeps_any. exact IH.
    + apply HybridSequential_hybrid_forward_keeps_any. exact IH.
    + assert (c <> r) by tauto.
      apply keeps_bind; [apply prepare_keeps; assumption | intros _].
      apply keeps_bind; [apply param_value_keeps | intros weight].
      apply keeps_bind.
      * destruct (Attr.Dense.bias d); [|apply keeps_ret].
        apply keeps_bind; [apply param_value_keeps | intros v].
        apply keeps_ret.
      * intros bias. apply Dense_hybrid_forward_keeps_any. exact IH.
    + apply Activation_hybrid_forward_keeps.
    + apply Dropout_hybrid_forward_keeps.
    + assert (c <> r) by tauto.
      apply keeps_bind; [apply prepare_keeps; assumption | intros _].
      do 4 (apply keeps_bind; [apply param_value_keeps | intros ?]).
      apply BatchNorm_hybrid_forward_keeps.
    + apply LeakyReLU_hybrid_forward_keeps.
    + assert (c <> r) by tauto.
      apply keeps_bind; [apply prepare_keeps; assumption | intros _].
      apply keeps_bind; [apply param_value_keeps | intros weight].
      apply Embedding_hybrid_forward_keeps.
    + apply Flatten_hybrid_forward_keeps.
Qed.

End FrameCall.

(** C10. Invoking [forward] or [hybrid_forward] of any class of the file
    on a layer [o] leaves the layer as it was, for every input and
    whether the call returns or raises: the children list, the
    configuration attributes and the registered Parameters are those of
    before.  The methods write nothing themselves; the blocks they
    invoke (the children of a container, the activation of a [Dense])
    are required not to write to the layer. *)
Theorem forward_keeps_attributes {B : Type}
  (invoke : ref -> tensor -> M B tensor) (F : Op.t B) (self : ref) (o : Obj) :
  (forall c y, In c (callees o) -> keeps (holds self o) (invoke c y)) ->
  forall (x : tensor) (w : World B),
    heap w !! self = Some o ->
    heap (snd (Sequential.forward invoke self x w)) !! self = Some o /\
    heap (snd (HybridSequential.hybrid_forward invoke self F x w)) !! self
    = Some o /\
    (forall weight bias,
       heap (snd (Dense.hybrid_forward invoke self F x weight bias w)) !! self
       = Some o) /\
    heap (snd (Activation.hybrid_forward self F x w)) !! self = Some o /\
    heap (snd (Dropout.hybrid_forward self F x w)) !! self = Some o /\
    (forall gamma beta running_mean running_var,
       heap (snd (BatchNorm.hybrid_forward self F x gamma beta running_mean
                    running_var w)) !! self = Some o) /\
    heap (snd (LeakyReLU.hybrid_forward self F x w)) !! self = Some o /\
    (forall weight,
       heap (snd (Embedding.hybrid_forward self F x weight w)) !! self
       = Some o) /\
    heap (snd (Flatten.hybrid_forward self F x w)) !! self = Some o.
Proof.
  intros Hinv x w H.
  assert (Hch : forall c y, In c (_children (base o)) ->
                            keeps (holds self o) (invoke c y)).
  { intros c y Hc. apply Hinv. unfold callees. apply in_or_app. left. exact Hc. }
  repeat split; intros.
  - apply Sequential_forward_keeps; assumption.
  - apply HybridSequential_hybrid_forward_keeps; assumption.
  - apply Dense_hybrid_forward_keeps; assumption.
  - apply Activation_hybrid_forward_keeps; assumption.
  - apply Dropout_hybrid_forward_keeps; assumption.
  - apply BatchNorm_hybrid_forward_keeps; assumption.
  - apply LeakyReLU_hybrid_forward_keeps; assumption.
  - apply Embedding_hybrid_forward_keeps; assumption.
  - apply Flatten_hybrid_forward_keeps; assumption.
Qed.

(** The container of the example, its children invoked through the
    dispatch of calls, is kept by its forward. *)
Lemma forward_keeps_attributes_witness :
  let w := example.world in
  let invoke := call example.ndarray example.initializer 5 in
  exists o,
    heap w !! 0 = Some o /\
    _children (base o) = [1; 2; 3] /\
    heap (snd (Sequential.forward invoke 0 (nd example.x222) w)) !! 0 = Some o.
Proof.
  intros w invoke. eexists. split; [reflexivity|]. split; [reflexivity|].
  refine (proj1 (forward_keeps_attributes invoke example.ndarray 0 _ _
                   (nd example.x222) w eq_refl)).
  intros c y _. apply call_keeps_param_free. exact I.
Defined.

(** ** Parameter dictionaries *)

Lemma find_app (key : string) (m m' : list (string * Param.t)) :
  ParameterDict.find key (m ++ m')
  = match ParameterDict.find key m with
    | Some p => Some p
    | None => ParameterDict.find key m'
    end.
Proof.
  induction m as [|[k p] m IH]; simpl; [reflexivity|].
  destruct (String.eqb k key); [reflexivity | exact IH].
Qed.

Lemma get_unregistered (pd : ParameterDict.t) (name grad_req : string)
  (shape : list Z) (init : option string) (allow : bool) :
  ParameterDict.lookup pd name = None ->
  ParameterDict.get pd name grad_req shape init allow
  = let p := Param.mk (ParameterDict.prefix pd +:+ name) grad_req shape init
               allow None in
    Ok (p, ParameterDict.mk (ParameterDict.prefix pd)
             (ParameterDict.mapping pd ++ [(name, p)])).
Proof. intros H. unfold ParameterDict.get. rewrite H. reflexivity. Qed.

Lemma lookup_snoc (pfx key name : string) (m : list (string * Param.t))
  (p : Param.t) :
  ParameterDict.lookup (ParameterDict.mk pfx (m ++ [(name, p)])) key
  = match ParameterDict.find key m with
    | Some q => Some q
    | None => if String.eqb name key then Some p else None
    end.
Proof. unfold ParameterDict.lookup. simpl. apply find_app. Qed.

Lemma frozen_not_trainable (pd : ParameterDict.t) (p : Param.t) :
  Param.grad_req p = "null" -> p ∉ ParameterDict.trainable pd.
Proof.
  intros Hg Hin. unfold ParameterDict.trainable in Hin.
  apply list_elem_of_filter in Hin as [Ht _].
  unfold Param.trainable in Ht. rewrite Hg in Ht. discriminate.
Qed.

Lemma unregistered_base {B : Type} (hint : string) (kw : kwargs)
  (names : list string) (w : World B) :
  unregistered kw names ->
  exists b, Block.__init__ hint kw w = (Ok b, w) /\ _children b = [] /\
    Forall (fun n => ParameterDict.lookup (params b) n = None) names.
Proof.
  intros H. unfold Block.__init__. eexists. split; [reflexivity|].
  split; [reflexivity|]. simpl. unfold unregistered in H.
  destruct (kw_params kw) as [pd|]; [exact H|].
  apply Forall_forall. intros n _. reflexivity.
Qed.

Section BatchNormInit.
Context {B : Type}.
Variables (axis : Z) (momentum epsilon : Q) (center scale : bool).
Variables (bi gi rmi rvi : option string) (in_channels : Z).

Lemma BatchNorm_init_run (kw : kwargs) (w : World B) :
  unregistered kw ["gamma"; "beta"; "running_mean"; "running_var"] ->
  exists (b : Block) (kwargs_attr : gmap string pyval),
    kwargs_attr !! "fix_gamma" = Some (PBool (negb center)) /\
    let pfx := ParameterDict.prefix (params b) in
    let g := Param.mk (pfx +:+ "gamma") (if scale then "write" else "null")
               [in_channels] gi true None in
    let be := Param.mk (pfx +:+ "beta") (if center then "write" else "null")
                [in_channels] bi true None in
    let m := Param.mk (pfx +:+ "running_mean") "null" [in_channels] rmi true
               None in
    let v := Param.mk (pfx +:+ "running_var") "null" [in_channels] rvi true
               None in
    Forall (fun n => ParameterDict.lookup (params b) n = None)
      ["gamma"; "beta"; "running_mean"; "running_var"] /\
    BatchNorm.__init__ axis momentum epsilon center scale bi gi rmi rvi
      in_channels kw w
    = (Ok (length (heap w)),
       mkWorld
         (heap w ++
          [mkObj
             (mkBlock (prefix b)
                (ParameterDict.mk pfx
                   (ParameterDict.mapping (params b) ++
                    [("gamma", g); ("beta", be); ("running_mean", m);
                     ("running_var", v)]))
                [])
             (Attr.BatchNorm
                (Attr.BatchNorm.mk kwargs_attr
                   (if (in_channels =? 0)%Z then None else Some in_channels)
                   "gamma" "beta" "running_mean" "running_var"))])
         (engine w)).
Proof.
  intros Hun.
  destruct (unregistered_base "batchnorm" kw _ w Hun) as (b & Hb & Hch & Hfresh).
  exists b. eexists. split; [|split; [exact Hfresh|]].
  2:{ unfold BatchNorm.__init__. unfold bind at 1. rewrite Hb.
      inversion Hfresh as [|? ? Hg Hf1]; subst.
      inversion Hf1 as [|? ? Hbe Hf2]; subst.
      inversion Hf2 as [|? ? Hm Hf3]; subst.
      inversion Hf3 as [|? ? Hv _]; subst.
      unfold ParameterDict.lookup in *.
      unfold bind, lift.
      rewrite (get_unregistered _ _ _ _ _ _ Hg). cbn zeta. cbn [snd fst].
      rewrite get_unregistered
        by (unfold ParameterDict.lookup; simpl; rewrite find_app, Hbe;
            reflexivity).
      cbn zeta. cbn [snd fst ParameterDict.prefix ParameterDict.mapping].
      rewrite <- app_assoc. cbn [app].
      rewrite get_unregistered
        by (unfold ParameterDict.lookup; simpl; rewrite find_app, Hm;
            reflexivity).
      cbn zeta. cbn [snd fst ParameterDict.prefix ParameterDict.mapping].
      rewrite <- app_assoc. cbn [app].
      rewrite get_unregistered
        by (unfold ParameterDict.lookup; simpl; rewrite find_app, Hv;
            reflexivity).
      cbn zeta. cbn [snd fst ParameterDict.prefix ParameterDict.mapping].
      rewrite <- app_assoc. cbn [app].
      unfold alloc. rewrite Hch. reflexivity. }
  rewrite lookup_insert_ne by done.
  rewrite lookup_insert_ne by done.
  rewrite lookup_insert_ne by done.
  apply lookup_insert_eq.
Qed.

End BatchNormInit.

Lemma heap_alloc_lookup {B : Type} (h : list Obj) (o : Obj) (e : B) :
  heap (mkWorld (h ++ [o]) e) !! length h = Some o.
Proof. simpl. apply list_lookup_middle. reflexivity. Qed.

(** C2. Whatever the [center] and [scale] flags, [BatchNorm.__init__]
    creates [running_mean] and [running_var] with the frozen gradient
    mode ['null'], and neither is in the enumeration of the trainable
    Parameters of the layer.  (The Parameters are created by the
    constructor: the names are not already registered in a supplied
    ParameterDict.) *)
Theorem BatchNorm_running_stats_frozen {B : Type}
  (axis : Z) (momentum epsilon : Q) (center scale : bool)
  (bi gi rmi rvi : option string) (in_channels : Z) (kw : kwargs)
  (w : World B) :
  unregistered kw ["gamma"; "beta"; "running_mean"; "running_var"] ->
  let run := BatchNorm.__init__ axis momentum epsilon center scale bi gi rmi
               rvi in_channels kw w in
  exists self bn pd m v,
    fst run = Ok self /\
    attrs_of (snd run) self = Some (Attr.BatchNorm bn) /\
    params_of (snd run) self = Some pd /\
    ParameterDict.lookup pd (Attr.BatchNorm.running_mean bn) = Some m /\
    ParameterDict.lookup pd (Attr.BatchNorm.running_var bn) = Some v /\
    Param.grad_req m = "null" /\
    Param.grad_req v = "null" /\
    (m ∉ ParameterDict.trainable pd) /\
    (v ∉ ParameterDict.trainable pd).
Proof.
  intros Hun run.
  destruct (BatchNorm_init_run axis momentum epsilon center scale bi gi rmi rvi
              in_channels kw w Hun) as (b & ka & _ & Hfresh & Hrun).
  cbn zeta in Hrun. subst run. rewrite Hrun. cbn [fst snd].
  inversion Hfresh as [|? ? Hg Hf1]; subst.
  inversion Hf1 as [|? ? Hbe Hf2]; subst.
  inversion Hf2 as [|? ? Hm Hf3]; subst.
  inversion Hf3 as [|? ? Hv _]; subst.
  unfold ParameterDict.lookup in Hm, Hv.
  eexists _, _, _, _, _.
  split; [reflexivity|].
  split; [unfold attrs_of; rewrite heap_alloc_lookup; reflexivity|].
  split; [unfold params_of; rewrite heap_alloc_lookup; reflexivity|].
  split; [unfold ParameterDict.lookup; simpl; rewrite find_app, Hm;
          reflexivity|].
  split; [unfold ParameterDict.lookup; simpl; rewrite find_app, Hv;
          reflexivity|].
  split; [reflexivity|]. split; [reflexivity|].
  split; apply frozen_not_trainable; reflexivity.
Qed.

(** [BatchNorm(center=True, scale=True)] on an empty heap. *)
Lemma BatchNorm_running_stats_frozen_witness :
  let run := BatchNorm.__init__ 1 (9 # 10) (1 # 1000) true true
               (Some "zeros") (Some "ones") (Some "zeros") (Some "ones") 0
               no_kwargs example.empty in
  exists self bn pd m v,
    fst run = Ok self /\
    attrs_of (snd run) self = Some (Attr.BatchNorm bn) /\
    params_of (snd run) self = Some pd /\
    ParameterDict.lookup pd (Attr.BatchNorm.running_mean bn) = Some m /\
    ParameterDict.lookup pd (Attr.BatchNorm.running_var bn) = Some v /\
    Param.grad_req m = "null" /\
    Param.grad_req v = "null" /\
    (m ∉ ParameterDict.trainable pd) /\
    (v ∉ ParameterDict.trainable pd).
Proof.
  apply (BatchNorm_running_stats_frozen 1 (9 # 10) (1 # 1000) true true
           (Some "zeros") (Some "ones") (Some "zeros") (Some "ones") 0
           no_kwargs example.empty).
  exact I.
Defined.

(** C4 (a defect of the code).  [fix_gamma], the flag that
    tells the operator not to use gamma, is computed from [center]:
    [BatchNorm(center=False, scale=True)] registers a trainable gamma and
    yet passes [fix_gamma=True] to [F.BatchNorm]; and for all flags
    [fix_gamma] is [not center] while the gradient mode of gamma follows
    [scale] and that of beta follows [center]. *)
Theorem BatchNorm_fix_gamma_follows_center {B : Type}
  (axis : Z) (momentum epsilon : Q) (bi gi rmi rvi : option string)
  (in_channels : Z) (w : World B) :
  (let run := BatchNorm.__init__ axis momentum epsilon false true bi gi rmi
                rvi in_channels no_kwargs w in
   exists self bn pd gamma,
     fst run = Ok self /\
     attrs_of (snd run) self = Some (Attr.BatchNorm bn) /\
     params_of (snd run) self = Some pd /\
     ParameterDict.lookup pd (Attr.BatchNorm.gamma bn) = Some gamma /\
     Param.grad_req gamma = "write" /\
     (gamma ∈ ParameterDict.trainable pd) /\
     Attr.BatchNorm._kwargs bn !! "fix_gamma" = Some (PBool true) /\
     forall (F : Op.t B) x g b m v,
       BatchNorm.hybrid_forward self F x g b m v (snd run)
       = op (Op.BatchNorm F x g b m v (Attr.BatchNorm._kwargs bn)) (snd run)) /\
  (forall center scale,
     let run := BatchNorm.__init__ axis momentum epsilon center scale bi gi
                  rmi rvi in_channels no_kwargs w in
     exists self bn pd gamma beta,
       fst run = Ok self /\
       attrs_of (snd run) self = Some (Attr.BatchNorm bn) /\
       params_of (snd run) self = Some pd /\
       ParameterDict.lookup pd (Attr.BatchNorm.gamma bn) = Some gamma /\
       ParameterDict.lookup pd (Attr.BatchNorm.beta bn) = Some beta /\
       Param.grad_req gamma = (if scale then "write" else "null") /\
       Param.grad_req beta = (if center then "write" else "null") /\
       Attr.BatchNorm._kwargs bn !! "fix_gamma" = Some (PBool (negb center))).
Proof.
  split.
  - cbn zeta. eexists _, _, _, _.
    split; [reflexivity|].
    split; [unfold attrs_of; simpl; rewrite list_lookup_middle by reflexivity;
            reflexivity|].
    split; [unfold params_of; simpl; rewrite list_lookup_middle by reflexivity;
            reflexivity|].
    split; [reflexivity|]. split; [reflexivity|].
    split.
    { unfold ParameterDict.trainable. apply list_elem_of_filter.
      split; [reflexivity|]. simpl. left. }
    split.
    { simpl. rewrite !lookup_insert_ne by done. apply lookup_insert_eq. }
    intros F x g b m v.
    unfold BatchNorm.hybrid_forward, BatchNorm.self_, bind, deref. simpl.
    rewrite list_lookup_middle by reflexivity. reflexivity.
  - intros center scale. cbn zeta. eexists _, _, _, _, _.
    split; [reflexivity|].
    split; [unfold attrs_of; simpl; rewrite list_lookup_middle by reflexivity;
            reflexivity|].
    split; [unfold params_of; simpl; rewrite list_lookup_middle by reflexivity;
            reflexivity|].
    split; [reflexivity|]. split; [reflexivity|].
    split; [reflexivity|]. split; [reflexivity|].
    simpl. rewrite !lookup_insert_ne by done. apply lookup_insert_eq.
Qed.

(** ** Deferred shapes *)

Lemma resolve_weight (units features : Z) :
  (0 < units)%Z -> (0 < features)%Z ->
  Param.resolve [units; 0%Z] [units; features] = Ok [units; features].
Proof.
  intros Hu Hf. simpl.
  assert (E0 : (0 <? features)%Z = true) by (apply Z.ltb_lt; exact Hf).
  assert (E1 : (units =? 0)%Z = false) by (apply Z.eqb_neq; lia).
  rewrite E0, E1, Z.eqb_refl, orb_true_r. reflexivity.
Qed.

Lemma resolve_known (dims : list Z) :
  Param.unknown dims = false -> Param.resolve dims dims = Ok dims.
Proof.
  unfold Param.unknown. induction dims as [|d ds IH]; simpl; [reflexivity|].
  intros H. apply orb_false_iff in H as [Hd Hds].
  rewrite (IH Hds). simpl. rewrite Hd, Z.eqb_refl, orb_true_r. reflexivity.
Qed.

Lemma unknown_positive (dims : list Z) :
  Forall (fun d => (0 < d)%Z) dims -> Param.unknown dims = false.
Proof.
  unfold Param.unknown. induction 1 as [|d ds Hd _ IH]; simpl; [reflexivity|].
  rewrite IH, orb_false_r. apply Z.eqb_neq. lia.
Qed.

Section Prepare.
Context {B : Type}.
Variable ndarray : Op.t B.
Variable initializer : option string -> list Z -> NDArray.t.

Lemma prepare_run (self : ref) (a : NDArray.t) (w : World B) (o : Obj)
  (observed : list (string * list Z)) (pd : ParameterDict.t)
  (m : list (string * Param.t)) :
  heap w !! self = Some o ->
  infer_shape (attrs o) (NDArray.shape a) = Ok observed ->
  resolve_all (params (base o)) observed = Ok pd ->
  materialize_all initializer (ParameterDict.mapping pd) = Ok m ->
  prepare initializer self (nd a) w
  = (Ok tt,
     mkWorld
       (<[self := mkObj (mkBlock (prefix (base o))
                           (ParameterDict.mk (ParameterDict.prefix pd) m)
                           (_children (base o)))
                    (attrs o)]> (heap w))
       (engine w)).
Proof.
  intros Ho Hi Hr Hm. unfold prepare, bind, lift, store.
  rewrite (deref_lookup _ _ _ Ho), Hi, Hr, Hm. reflexivity.
Qed.

Lemma call_Activation_keeps_heap (fuel : nat) (h : list Obj) (a : ref)
  (oa : Obj) (act : Attr.Activation.t) (y : tensor) :
  h !! a = Some oa -> attrs oa = Attr.Activation act ->
  keeps (heap_is h) (call ndarray initializer fuel a y).
Proof.
  intros Ha Hact. destruct fuel as [|n]; simpl; [apply keeps_raise|].
  intros w H. unfold bind at 1, deref at 1.
  unfold heap_is in H. rewrite H, Ha, Hact.
  apply (Activation_hybrid_forward_keeps (heap_is h)). exact H.
Qed.

Lemma Dense_hybrid_forward_keeps_heap invoke (self : ref) (F : Op.t B)
  (x weight : tensor) (bias : option tensor) (h : list Obj) (o : Obj)
  (d : Attr.Dense.t) :
  h !! self = Some o -> attrs o = Attr.Dense d ->
  (forall a y, Attr.Dense.act d = Some a ->
               keeps (B := B) (heap_is h) (invoke a y)) ->
  keeps (heap_is h) (Dense.hybrid_forward invoke self F x weight bias).
Proof.
  intros Ho Hd Hinv w H.
  unfold Dense.hybrid_forward, Dense.self_, bind at 1 2, deref.
  rewrite H, Ho, Hd. simpl.
  revert w H.
  change (keeps (heap_is h)
            (act <- match bias with
                    | Some b =>
                        op (Op.FullyConnected F x weight (Some b) false
                              (Attr.Dense._units d))
                    | None =>
                        op (Op.FullyConnected F x weight None true
                              (Attr.Dense._units d))
                    end ;;
             match Attr.Dense.act d with
             | Some a => invoke a act
             | None => ret act
             end)).
  apply keeps_bind.
  - destruct bias; apply keeps_op.
  - intros act. destruct (Attr.Dense.act d) as [a|] eqn:Hact.
    + apply Hinv. reflexivity.
    + apply keeps_ret.
Qed.

(** A call of a [Dense] whose preparation succeeds leaves the heap as
    the preparation made it, whatever the operators answer. *)
Lemma call_Dense_heap (fuel : nat) (self : ref) (a : NDArray.t)
  (w : World B) (o o' : Obj) (d : Attr.Dense.t) :
  heap w !! self = Some o -> attrs o = Attr.Dense d ->
  attrs o' = Attr.Dense d ->
  prepare initializer self (nd a) w
  = (Ok tt, mkWorld (<[self := o']> (heap w)) (engine w)) ->
  match Attr.Dense.act d with
  | Some c => c <> self /\ exists oc act,
                heap w !! c = Some oc /\ attrs oc = Attr.Activation act
  | None => True
  end ->
  heap (snd (call ndarray initializer (S fuel) self (nd a) w))
  = <[self := o']> (heap w).
Proof.
  intros Ho Hd Hd' Hprep Hact. cbn [call].
  unfold bind at 1. rewrite (deref_lookup _ _ _ Ho), Hd.
  unfold bind at 1. rewrite Hprep.
  set (h := <[self := o']> (heap w)).
  set (w1 := mkWorld h (engine w)).
  assert (Hself : h !! self = Some o').
  { apply list_lookup_insert_eq. apply lookup_lt_Some in Ho. exact Ho. }
  assert (K : keeps (B := B) (A := tensor) (heap_is h)
                (weight <- param_value self (nd a) (Attr.Dense.weight d) ;;
                 bias <- match Attr.Dense.bias d with
                         | Some b => v <- param_value self (nd a) b ;; ret (Some v)
                         | None => ret None
                         end ;;
                 Dense.hybrid_forward (call ndarray initializer fuel) self
                   ndarray (nd a) weight bias)).
  { apply keeps_bind; [apply param_value_keeps | intros weight].
    apply keeps_bind.
    - destruct (Attr.Dense.bias d); [|apply keeps_ret].
      apply keeps_bind; [apply param_value_keeps | intros v]. apply keeps_ret.
    - intros bias.
      apply (Dense_hybrid_forward_keeps_heap _ self ndarray (nd a) weight bias
               h o' d Hself Hd').
      intros c y Hc. rewrite Hc in Hact.
      destruct Hact as (Hne & oc & act & Hoc & Hattr).
      apply (call_Activation_keeps_heap fuel h c oc act y); [|exact Hattr].
      unfold h. rewrite list_lookup_insert_ne by (intros E; apply Hne; symmetry; exact E).
      exact Hoc. }
  apply (K w1). reflexivity.
Qed.

End Prepare.

Lemma Dense_init_run {B : Type} (units : Z) (activation : option string)
  (use_bias : bool) (wi bi : option string) (in_units : Z)
  (pfx : option string) (w : World B) :
  exists (h : list Obj) (o : Obj) (d : Attr.Dense.t) (name : string),
    Dense.__init__ units activation use_bias wi bi in_units
      (mkKwargs pfx None) w
    = (Ok (length h), mkWorld (h ++ [o]) (engine w)) /\
    attrs o = Attr.Dense d /\
    Attr.Dense._units d = units /\
    Attr.Dense.weight d = "weight" /\
    Attr.Dense.bias d = (if use_bias then Some "bias" else None) /\
    params (base o)
    = ParameterDict.mk name
        (("weight", Param.mk (name +:+ "weight") "write" [units; in_units] wi
                      true None) ::
         if use_bias
         then [("bias", Param.mk (name +:+ "bias") "write" [units] bi true None)]
         else []) /\
    match Attr.Dense.act d with
    | Some c => c <> length h /\ exists oc act,
                  (h ++ [o]) !! c = Some oc /\ attrs oc = Attr.Activation act
    | None => True
    end.
Proof.
  destruct activation as [a|], use_bias;
    (eexists _, _, _, _; split; [reflexivity|]; repeat (split; [reflexivity|]));
    cbn; try exact I.
  all: split; [rewrite length_app; simpl; lia|].
  all: eexists _, _; split;
    [rewrite <- app_assoc; apply list_lookup_middle; reflexivity
    |reflexivity].
Qed.

(** C5. A [Dense] constructed with the unknown [in_units] (the sentinel
    [0], the default) registers its weight with the declared shape
    [(units, 0)] and with deferred initialization allowed, and the
    Parameter is deferred; the first call on an array whose last
    dimension is [features] resolves the shape to [(units, features)],
    whatever the operators of the engine answer.  An input of shape
    [(4, 7)] resolves the weight to [(units, 7)]. *)
Theorem Dense_deferred_in_units {B : Type}
  (ndarray : Op.t B) (initializer : option string -> list Z -> NDArray.t)
  (units : Z) (activation : option string) (use_bias : bool)
  (wi bi : option string) (pfx : option string) (w : World B)
  (fuel : nat) (dims : list Z) (features : Z) (data : list Q) :
  (0 < units)%Z -> (0 < features)%Z ->
  let run := Dense.__init__ units activation use_bias wi bi 0
               (mkKwargs pfx None) w in
  exists self d p,
    fst run = Ok self /\
    attrs_of (snd run) self = Some (Attr.Dense d) /\
    param_of (snd run) self (Attr.Dense.weight d) = Some p /\
    Param.shape p = [units; 0%Z] /\
    Param.allow_deferred_init p = true /\
    Param.deferred p = true /\
    let x := nd (NDArray.mk (dims ++ [features]) data) in
    let after := snd (call ndarray initializer (S fuel) self x (snd run)) in
    exists p',
      param_of after self (Attr.Dense.weight d) = Some p' /\
      Param.shape p' = [units; features] /\
      Param.deferred p' = false.
Proof.
  intros Hu Hf run.
  pose proof (resolve_weight units features Hu Hf) as Hrw.
  assert (Hkb : Param.unknown [units] = false)
    by (apply unknown_positive; repeat constructor; exact Hu).
  assert (Hkw : Param.unknown [units; features] = false)
    by (apply unknown_positive; repeat constructor; assumption).
  pose proof (resolve_known [units] Hkb) as Hrb.
  destruct (Dense_init_run units activation use_bias wi bi 0 pfx w)
    as (h & o & d & name & Hrun & Hd & Hunits & Hweight & Hbias & Hparams & Hact).
  subst run. rewrite Hrun. cbn [fst snd].
  assert (Ho : (h ++ [o]) !! length h = Some o)
    by (apply list_lookup_middle; reflexivity).
  exists (length h), d. eexists.
  split; [reflexivity|].
  split; [unfold attrs_of; cbn [heap]; rewrite Ho, Hd; reflexivity|].
  split; [unfold param_of, params_of; cbn [heap];
          rewrite Ho, Hparams, Hweight; reflexivity|].
  split; [reflexivity|]. split; [reflexivity|].
  split; [unfold Param.deferred, Param.unknown; simpl;
          rewrite orb_true_r; reflexivity|].
  cbn zeta.
  set (a := NDArray.mk (dims ++ [features]) data).
  set (w1 := mkWorld (h ++ [o]) (engine w)).
  assert (Hinfer : infer_shape (attrs o) (NDArray.shape a)
                   = Ok (("weight", [units; features]) ::
                         if use_bias then [("bias", [units])] else [])).
  { rewrite Hd. unfold infer_shape. simpl NDArray.shape.
    rewrite last_snoc, Hweight, Hunits, Hbias. destruct use_bias; reflexivity. }
  set (pw := Param.mk (name +:+ "weight") "write" [units; features] wi true).
  set (pb := Param.mk (name +:+ "bias") "write" [units] bi true).
  assert (Hres : resolve_all (params (base o))
                   (("weight", [units; features]) ::
                    if use_bias then [("bias", [units])] else [])
                 = Ok (ParameterDict.mk name
                         (("weight", pw None) ::
                          if use_bias then [("bias", pb None)] else []))).
  { rewrite Hparams. destruct use_bias; cbn -[Param.resolve];
      unfold Param.resolve_shape; cbn -[Param.resolve]; rewrite Hrw;
      cbn -[Param.resolve]; [|reflexivity].
    unfold Param.resolve_shape; cbn -[Param.resolve]. rewrite Hrb.
    reflexivity. }
  assert (Hmat : materialize_all initializer
                   (("weight", pw None) ::
                    if use_bias then [("bias", pb None)] else [])
                 = Ok (("weight", pw (Some (initializer wi [units; features]))) ::
                       if use_bias
                       then [("bias", pb (Some (initializer bi [units])))]
                       else [])).
  { destruct use_bias; cbn -[Param.unknown]; rewrite Hkw; cbn -[Param.unknown];
      [|reflexivity].
    rewrite Hkb. reflexivity. }
  pose proof (prepare_run initializer (length h) a w1 o _ _ _ Ho Hinfer Hres Hmat)
    as Hprep.
  cbn [ParameterDict.prefix] in Hprep.
  match type of Hprep with
  | _ = (_, mkWorld (<[_ := ?ob]> _) _) => set (o' := ob) in Hprep
  end.
  unfold param_of, params_of.
  rewrite (call_Dense_heap ndarray initializer fuel (length h) a w1 o o' d Ho Hd
             Hd Hprep Hact).
  eexists. split.
  - cbn [heap w1].
    rewrite list_lookup_insert_eq by (rewrite length_app; simpl; lia).
    cbn [params base]. rewrite Hweight. reflexivity.
  - split; [reflexivity|]. unfold Param.deferred. simpl Param.shape.
    rewrite Hkw. reflexivity.
Qed.

(** [Dense(3, activation='relu')] called on an array of shape (4, 7). *)
Lemma Dense_deferred_in_units_witness :
  let run := Dense.__init__ 3 (Some "relu") true None (Some "zeros") 0
               no_kwargs example.empty in
  exists self d p,
    fst run = Ok self /\
    attrs_of (snd run) self = Some (Attr.Dense d) /\
    param_of (snd run) self (Attr.Dense.weight d) = Some p /\
    Param.shape p = [3; 0]%Z /\
    Param.allow_deferred_init p = true /\
    Param.deferred p = true /\
    let x := nd (NDArray.mk [4; 7]%Z (repeat 0%Q 28)) in
    let after := snd (call example.ndarray example.initializer 2 self x
                        (snd run)) in
    exists p',
      param_of after self (Attr.Dense.weight d) = Some p' /\
      Param.shape p' = [3; 7]%Z /\
      Param.deferred p' = false.
Proof.
  apply (Dense_deferred_in_units example.ndarray example.initializer 3
           (Some "relu") true None (Some "zeros") None example.empty 1
           [4%Z] 7 (repeat 0%Q 28)); lia.
Defined.

(** ** Dropout *)

(** C3 (as stated, refuted).  The rate 2 lies outside [0, 1] and the
    constructor accepts it: [Dropout(2)] returns a layer that stores
    the rate 2. *)
Lemma Dropout_rate_outside_unit_interval_accepted :
  let run := Dropout.__init__ 2 no_kwargs example.empty in
  ~ (0 <= 2 /\ 2 <= 1)%Q /\
  fst run = Ok 0 /\
  attrs_of (snd run) 0 = Some (Attr.Dropout (Attr.Dropout.mk 2)).
Proof.
  cbn zeta. split; [|split; reflexivity].
  intros [_ H]. unfold Qle in H. simpl in H. lia.
Qed.

(** C3 (amended).  The constructor of [Dropout] validates nothing: for
    every rate, inside [0, 1] or not, the construction succeeds, the
    layer stores the rate as given, and the forward computation hands
    exactly that rate to [F.Dropout] as [p]. *)
Theorem Dropout_stores_any_rate {B : Type} (rate : Q) (kw : kwargs)
  (w : World B) :
  let run := Dropout.__init__ rate kw w in
  exists self,
    fst run = Ok self /\
    attrs_of (snd run) self = Some (Attr.Dropout (Attr.Dropout.mk rate)) /\
    forall (F : Op.t B) (x : tensor),
      Dropout.hybrid_forward self F x (snd run)
      = op (Op.Dropout F x rate) (snd run).
Proof.
  cbn zeta. exists (length (heap w)).
  assert (Hrun : exists b,
             Dropout.__init__ rate kw w
             = (Ok (length (heap w)),
                mkWorld (heap w ++ [mkObj b (Attr.Dropout (Attr.Dropout.mk rate))])
                  (engine w)))
    by (eexists; reflexivity).
  destruct Hrun as [b Hrun]. rewrite Hrun. cbn [fst snd].
  split; [reflexivity|]. split.
  - unfold attrs_of. cbn [heap].
    rewrite list_lookup_middle by reflexivity. reflexivity.
  - intros F x. unfold Dropout.hybrid_forward, Dropout.self_, bind, deref.
    cbn [heap]. rewrite list_lookup_middle by reflexivity. reflexivity.
Qed.

(** ** Dense *)

(** C7 (as stated, refuted).  While a graph is traced the input of a
    [Dense] is a symbol; declared of rank 3, it makes [Dense] return the
    node [FullyConnected(data, weight, bias)]: no RankError. *)
Lemma Dense_rank3_input_no_RankError :
  let w := example.world_after
             (Dense.__init__ 3 None true None (Some "zeros") 0 no_kwargs) in
  let invoke := call example.ndarray example.initializer 1 in
  let x := sym (Var "data" (Some [4; 3; 5]%Z)) in
  let weight := Var "dense0_weight" None in
  let bias := Var "dense0_bias" None in
  ndim x = Some 3 /\
  attrs_of w 0
  = Some (Attr.Dense (Attr.Dense.mk 3 0 "weight" (Some "bias") None)) /\
  fst (Dense.hybrid_forward invoke 0 symbol.F x (sym weight) (Some (sym bias)) w)
  = Ok (sym (Apply "FullyConnected"
               [Var "data" (Some [4; 3; 5]%Z); weight; bias]
               (<["no_bias" := PBool false]>
                  (<["num_hidden" := PInt 3]> ∅)))) /\
  fst (call example.ndarray example.initializer 2 0 x w)
  = fst (Dense.hybrid_forward invoke 0 symbol.F x (sym weight) (Some (sym bias)) w).
Proof.
  cbn zeta. repeat split; reflexivity.
Qed.

(** C7 (amended).  [Dense.hybrid_forward] hands its input, the weight
    and the bias to [F.FullyConnected] (with [no_bias] exactly when
    there is no bias, and [num_hidden = units]) and applies the
    activation to the result when one was specified; when the
    activation block runs its own [hybrid_forward] the result is
    [F.Activation(F.FullyConnected(x, weight, bias))].  [Dense] checks
    no rank itself: for an input of any rank its result, or its
    failure, is that of [F.FullyConnected]. *)
Theorem Dense_forward_delegates {B : Type}
  (invoke : ref -> tensor -> M B tensor) (F : Op.t B) (self : ref) (o : Obj)
  (d : Attr.Dense.t) (x weight : tensor) (bias : option tensor) (w : World B) :
  heap w !! self = Some o ->
  attrs o = Attr.Dense d ->
  let no_bias := match bias with Some _ => false | None => true end in
  let fc := op (Op.FullyConnected F x weight bias no_bias (Attr.Dense._units d)) in
  Dense.hybrid_forward invoke self F x weight bias w
  = (y <- fc ;;
     match Attr.Dense.act d with
     | Some a => invoke a y
     | None => ret y
     end) w /\
  (forall e, fst (fc w) = Raise e ->
             fst (Dense.hybrid_forward invoke self F x weight bias w) = Raise e) /\
  (Attr.Dense.act d = None ->
   fst (Dense.hybrid_forward invoke self F x weight bias w) = fst (fc w)) /\
  (forall a oa t,
     Attr.Dense.act d = Some a ->
     heap w !! a = Some oa ->
     attrs oa = Attr.Activation t ->
     Dense.hybrid_forward (fun c y => Activation.hybrid_forward c F y)
       self F x weight bias w
     = (y <- fc ;; op (Op.Activation F y (Attr.Activation._act_type t))) w).
Proof.
  intros Ho Hd no_bias fc.
  assert (Hrun : forall inv,
             Dense.hybrid_forward inv self F x weight bias w
             = (y <- fc ;;
                match Attr.Dense.act d with
                | Some a => inv a y
                | None => ret y
                end) w).
  { intros inv. unfold Dense.hybrid_forward, Dense.self_, bind at 1 2.
    rewrite (deref_lookup _ _ _ Ho), Hd. subst fc no_bias.
    destruct bias; reflexivity. }
  split; [apply Hrun|]. split; [|split].
  - intros e He. rewrite Hrun. unfold bind.
    destruct (fc w) as [[y|e'] w']; simpl in *; [discriminate|exact He].
  - intros Hact. rewrite Hrun, Hact. unfold bind, ret.
    destruct (fc w) as [[y|e'] w']; reflexivity.
  - intros a oa t Hact Ha Hoa. rewrite Hrun, Hact.
    subst fc. unfold bind, op.
    destruct (Op.FullyConnected F x weight bias no_bias (Attr.Dense._units d)
                (engine w)) as [[y|e] b]; [|reflexivity].
    unfold Activation.hybrid_forward, Activation.self_, bind, deref, op.
    cbn [heap engine]. rewrite Ha, Hoa. reflexivity.
Qed.

Lemma Dense_forward_delegates_witness :
  let w := example.world_after
             (Dense.__init__ 3 None true None (Some "zeros") 0 no_kwargs) in
  let invoke := call example.ndarray example.initializer 1 in
  let x := sym (Var "data" (Some [4; 3; 5]%Z)) in
  let weight := sym (Var "dense0_weight" None) in
  let bias := Some (sym (Var "dense0_bias" None)) in
  Dense.hybrid_forward invoke 0 symbol.F x weight bias w
  = (y <- op (Op.FullyConnected symbol.F x weight bias false 3) ;; ret y) w.
Proof.
  intros w invoke x weight bias.
  exact (proj1 (Dense_forward_delegates invoke symbol.F 0 _
                  (Attr.Dense.mk 3 0 "weight" (Some "bias") None)
                  x weight bias w eq_refl eq_refl)).
Defined.

(** ** Embedding *)

Section EmbeddingCall.
Context {B : Type}.
Variable ndarray : Op.t B.
Variable initializer : option string -> list Z -> NDArray.t.

(** A call of an [Embedding] leaves the heap as its preparation
    made it. *)
Lemma call_Embedding_heap (fuel : nat) (self : ref) (x : tensor)
  (w : World B) (o : Obj) (e : Attr.Embedding.t) :
  heap w !! self = Some o -> attrs o = Attr.Embedding e ->
  heap (snd (call ndarray initializer (S fuel) self x w))
  = heap (snd (prepare initializer self x w)).
Proof.
  intros Ho He. cbn [call].
  unfold bind at 1. rewrite (deref_lookup _ _ _ Ho), He.
  unfold bind at 1.
  destruct (prepare initializer self x w) as [[u|err] w1]; [|reflexivity].
  cbn [snd].
  assert (K : keeps (B := B) (A := tensor) (heap_is (heap w1))
                (weight <- param_value self x (Attr.Embedding.weight e) ;;
                 Embedding.hybrid_forward self (namespace ndarray x) x weight)).
  { apply keeps_bind; [apply param_value_keeps | intros weight].
    apply Embedding_hybrid_forward_keeps. }
  apply (K w1). reflexivity.
Qed.

(** Materializing a Parameter never changes its shape. *)
Lemma materialize_shape (p p' : Param.t) :
  materialize initializer p = Ok p' -> Param.shape p' = Param.shape p.
Proof.
  unfold materialize. destruct (Param.data p).
  - intros [= <-]. reflexivity.
  - destruct (Param.unknown (Param.shape p)).
    + destruct (Param.allow_deferred_init p); [|discriminate].
      intros [= <-]. reflexivity.
    + intros [= <-]. reflexivity.
Qed.

End EmbeddingCall.

(** C8. [Embedding.__init__] registers its weight with the shape
    [(input_dim, output_dim)] given to the constructor, for every
    [input_dim] and [output_dim], and no dimension of it waits for an
    input: for an [Embedding] the shape inference of a call has nothing
    to resolve, whatever the shape of the input, and after any call on
    any input the weight still has the shape
    [(input_dim, output_dim)]. *)
Theorem Embedding_weight_never_resolved {B : Type}
  (ndarray : Op.t B) (initializer : option string -> list Z -> NDArray.t)
  (input_dim output_dim : Z) (dtype : string) (wi pfx : option string)
  (w : World B) :
  let run := Embedding.__init__ input_dim output_dim dtype wi
               (mkKwargs pfx None) w in
  exists self e p,
    fst run = Ok self /\
    attrs_of (snd run) self = Some (Attr.Embedding e) /\
    param_of (snd run) self (Attr.Embedding.weight e) = Some p /\
    Param.shape p = [input_dim; output_dim] /\
    (forall xshape : list Z, infer_shape (Attr.Embedding e) xshape = Ok []) /\
    forall (fuel : nat) (x : tensor),
      exists p',
        param_of (snd (call ndarray initializer fuel self x (snd run))) self
          (Attr.Embedding.weight e) = Some p' /\
        Param.shape p' = [input_dim; output_dim].
Proof.
  cbn zeta.
  assert (Hrun : exists name kw,
    let p := Param.mk (name +:+ "weight") "write" [input_dim; output_dim] wi
               true None in
    Embedding.__init__ input_dim output_dim dtype wi (mkKwargs pfx None) w
    = (Ok (length (heap w)),
       mkWorld
         (heap w ++
          [mkObj (mkBlock name (ParameterDict.mk name [("weight", p)]) [])
             (Attr.Embedding (Attr.Embedding.mk kw "weight"))])
         (engine w)))
    by (eexists _, _; cbn zeta; unfold Embedding.__init__, Block.__init__, bind,
          lift, alloc; cbn; reflexivity).
  destruct Hrun as (name & kw & Hrun). cbn zeta in Hrun. rewrite Hrun.
  cbn [fst snd].
  set (p := Param.mk (name +:+ "weight") "write" [input_dim; output_dim] wi true).
  set (e := Attr.Embedding.mk kw "weight").
  set (o := mkObj (mkBlock name (ParameterDict.mk name [("weight", p None)]) [])
              (Attr.Embedding e)).
  set (w1 := mkWorld (heap w ++ [o]) (engine w)).
  assert (Ho : heap w1 !! length (heap w) = Some o)
    by (apply list_lookup_middle; reflexivity).
  assert (Hp : param_of w1 (length (heap w)) "weight" = Some (p None))
    by (unfold param_of, params_of; rewrite Ho; reflexivity).
  exists (length (heap w)), e, (p None).
  split; [reflexivity|].
  split; [unfold attrs_of; rewrite Ho; reflexivity|].
  split; [exact Hp|].
  split; [reflexivity|]. split; [intros xshape; reflexivity|].
  intros [|fuel] x.
  { exists (p None). split; [exact Hp | reflexivity]. }
  unfold param_of, params_of.
  rewrite (call_Embedding_heap ndarray initializer fuel _ x w1 o e Ho eq_refl).
  destruct x as [a|s].
  - unfold prepare, bind, lift, store. rewrite (deref_lookup _ _ _ Ho).
    cbn [attrs o infer_shape resolve_all params base ParameterDict.mapping
         materialize_all].
    destruct (materialize initializer (p None)) as [p'|err] eqn:Hm.
    + cbn [rbind snd heap w1].
      rewrite list_lookup_insert_eq by (rewrite length_app; simpl; lia).
      exists p'. split; [reflexivity|].
      apply (materialize_shape _ _ _ Hm).
    + exfalso. unfold materialize, p in Hm.
      cbn [Param.data Param.shape Param.allow_deferred_init] in Hm.
      destruct (Param.unknown [input_dim; output_dim]); discriminate.
  - cbn [prepare ret snd]. rewrite Ho.
    exists (p None). split; reflexivity.
Qed.

(** ** Flatten *)

Section RowMajor.
Import NDArray.

Lemma size_pos (ds : list Z) :
  Forall (fun d => (0 < d)%Z) ds -> (0 < size ds)%Z.
Proof.
  induction 1 as [|d ds Hd _ IH]; simpl; [lia|]. unfold size in *. simpl. nia.
Qed.

Lemma ravel_bounds (ds idx : list Z) :
  valid_index ds idx = true -> (0 <= ravel ds idx < size ds)%Z.
Proof.
  revert idx. induction ds as [|d ds IH]; intros [|i ix] H; simpl in H;
    try discriminate.
  - unfold size. simpl. lia.
  - apply andb_prop in H as [H Hix]. apply andb_prop in H as [H0 H1].
    apply Z.leb_le in H0. apply Z.ltb_lt in H1.
    specialize (IH ix Hix). simpl. change (size (d :: ds)) with (d * size ds)%Z.
    nia.
Qed.

Lemma unravel_valid (ds : list Z) (j : Z) :
  Forall (fun d => (0 < d)%Z) ds -> (0 <= j < size ds)%Z ->
  valid_index ds (unravel ds j) = true /\ ravel ds (unravel ds j) = j.
Proof.
  intros Hds. revert j. induction Hds as [|d ds Hd Hds IH]; intros j Hj.
  - unfold size in Hj. simpl in *. split; [reflexivity | lia].
  - change (size (d :: ds)) with (d * size ds)%Z in Hj.
    pose proof (size_pos ds Hds) as HS.
    pose proof (Z.mod_pos_bound j (size ds) HS) as Hm.
    destruct (IH (j mod size ds)%Z Hm) as [Hv Hr].
    simpl. rewrite Hv, Hr. split.
    + assert (0 <= j / size ds)%Z by (apply Z.div_pos; lia).
      assert (j / size ds < d)%Z by (apply Z.div_lt_upper_bound; lia).
      rewrite andb_true_r. apply andb_true_intro.
      split; [apply Z.leb_le | apply Z.ltb_lt]; lia.
    + pose proof (Z.div_mod j (size ds)). lia.
Qed.

(** [x.reshape((0, -1))] on an array whose first dimension is
    positive. *)
Lemma reshape_0_m1 (N : Z) (ds : list Z) (data : list Q) :
  (0 < N)%Z ->
  reshape (mk (N :: ds) data) [0; -1]%Z = Ok (mk [N; size ds] data).
Proof.
  intros HN. unfold reshape. cbn [shape].
  assert (Hc : copy_dims [0; -1]%Z (N :: ds) = Ok [N; (-1)%Z]) by reflexivity.
  rewrite Hc. cbn [rbind].
  unfold infer_dim, known.
  rewrite !filter_cons, !filter_nil.
  rewrite (decide_False (P := N = (-1)%Z)) by lia.
  rewrite (decide_True (P := N <> (-1)%Z)) by lia.
  rewrite (decide_True (P := (-1)%Z = (-1)%Z)) by reflexivity.
  rewrite (decide_False (P := (-1)%Z <> (-1)%Z)) by (intros H; apply H; reflexivity).
  cbn [length]. change (size [N]) with (N * 1)%Z.
  change (size (N :: ds)) with (N * size ds)%Z.
  assert (E1 : (N * 1 =? 0)%Z = false) by (apply Z.eqb_neq; lia).
  assert (E2 : ((N * size ds) mod (N * 1) =? 0)%Z = true).
  { apply Z.eqb_eq. rewrite Z.mul_1_r, Z.mul_comm. apply Z.mod_mul. lia. }
  assert (E3 : (N * size ds / (N * 1))%Z = size ds).
  { rewrite Z.mul_1_r, Z.mul_comm. apply Z.div_mul. lia. }
  assert (E4 : (N =? -1)%Z = false) by (apply Z.eqb_neq; lia).
  rewrite E1, E2. cbn [orb negb map rbind]. rewrite E3, E4. reflexivity.
Qed.

End RowMajor.

(** C6. For an input array of shape [(N, d1, ..., dk)], [Flatten]
    returns an array of shape [(N, d1*...*dk)]: the batch dimension is
    kept, and the element at [(n, j)] is the element of the input whose
    index in the dimensions 1..k has the row-major offset [j]; every
    [j] below [d1*...*dk] is such an offset. *)
Theorem Flatten_row_major {B : Type} (self : ref) (F : Op.t B)
  (N : Z) (ds : list Z) (data : list Q) (w : World B) :
  let x := NDArray.mk (N :: ds) data in
  NDArray.wf x ->
  exists y,
    Flatten.hybrid_forward self F (nd x) w = (Ok (nd y), w) /\
    NDArray.shape y = [N; NDArray.size ds] /\
    (forall n idx,
       NDArray.valid_index (N :: ds) (n :: idx) = true ->
       exists v,
         NDArray.at_ y [n; NDArray.ravel ds idx] = Some v /\
         NDArray.at_ x (n :: idx) = Some v) /\
    (forall n j,
       (0 <= n < N)%Z -> (0 <= j < NDArray.size ds)%Z ->
       exists v,
         NDArray.at_ y [n; j] = Some v /\
         NDArray.at_ x (n :: NDArray.unravel ds j) = Some v).
Proof.
  intros x [Hpos Hlen]. cbn [NDArray.shape NDArray.data x] in Hpos, Hlen.
  inversion Hpos as [|? ? HN Hds]; subst.
  exists (NDArray.mk [N; NDArray.size ds] data).
  assert (Hat : forall n idx,
             NDArray.valid_index (N :: ds) (n :: idx) = true ->
             exists v,
               NDArray.at_ (NDArray.mk [N; NDArray.size ds] data)
                 [n; NDArray.ravel ds idx] = Some v /\
               NDArray.at_ x (n :: idx) = Some v).
  { intros n idx Hv.
    pose proof (ravel_bounds (N :: ds) (n :: idx) Hv) as Hb.
    simpl in Hv. apply andb_prop in Hv as [Hn Hidx].
    pose proof (ravel_bounds ds idx Hidx) as Hr.
    assert (Hsome : is_Some (data !! Z.to_nat (NDArray.ravel (N :: ds) (n :: idx)))).
    { apply lookup_lt_is_Some. lia. }
    destruct Hsome as [v Hv]. exists v.
    unfold NDArray.at_. cbn [NDArray.shape NDArray.data x].
    split.
    - assert (E : NDArray.valid_index [N; NDArray.size ds]
                    [n; NDArray.ravel ds idx] = true).
      { simpl. rewrite Hn. simpl. rewrite andb_true_r.
        apply andb_true_intro. split; [apply Z.leb_le | apply Z.ltb_lt]; lia. }
      rewrite E. rewrite <- Hv. f_equal. f_equal. simpl.
      unfold NDArray.size. simpl. lia.
    - simpl NDArray.valid_index. rewrite Hn, Hidx. exact Hv. }
  split; [|split; [reflexivity|split; [exact Hat|]]].
  - unfold Flatten.hybrid_forward, lift, reshape.
    subst x. rewrite (reshape_0_m1 N ds data HN). reflexivity.
  - intros n j Hn Hj.
    destruct (unravel_valid ds j Hds Hj) as [Hv Hr].
    destruct (Hat n (NDArray.unravel ds j)) as [v Hv'].
    { simpl. rewrite Hv, andb_true_r. apply andb_true_intro.
      split; [apply Z.leb_le | apply Z.ltb_lt]; lia. }
    rewrite Hr in Hv'. exists v. exact Hv'.
Qed.

(** The array of the example, of shape (2, 2, 2): its element at
    (1, 0, 1) is the element at (1, 1) of the flattened array. *)
Lemma Flatten_row_major_witness :
  exists y,
    Flatten.hybrid_forward 0 symbol.F (nd example.x222) example.empty
    = (Ok (nd y), example.empty) /\
    NDArray.shape y = [2; 4]%Z /\
    NDArray.at_ y [1; 1]%Z = Some (-6)%Q /\
    NDArray.at_ example.x222 [1; 0; 1]%Z = Some (-6)%Q.
Proof.
  assert (Hwf : NDArray.wf example.x222).
  { split; [repeat constructor; lia | reflexivity]. }
  destruct (Flatten_row_major 0 symbol.F 2 [2; 2]%Z
              [1; -2; 3; -4; 5; -6; 7; -8]%Q example.empty Hwf)
    as (y & Hrun & Hshape & Hat & _).
  exists y. split; [exact Hrun|]. split; [exact Hshape|].
  destruct (Hat 1%Z [0; 1]%Z eq_refl) as (v & Hy & Hx).
  assert (Hv : Some v = Some (-6)%Q) by (rewrite <- Hx; reflexivity).
  injection Hv as ->. split; [exact Hy | reflexivity].
Defined.

(** * Further properties of the code *)

(** ** The loop of a container *)

Section Loop.
Context {B : Type}.
Variable invoke : ref -> tensor -> M B tensor.

Lemma Sequential_for_block_app (cs ds : list ref) (x : tensor) (w : World B) :
  Sequential.for_block invoke (cs ++ ds) x w
  = (y <- Sequential.for_block invoke cs x ;; Sequential.for_block invoke ds y) w.
Proof.
  revert x w. induction cs as [|c cs IH]; intros x w; simpl.
  - reflexivity.
  - rewrite bind_assoc. apply bind_ext. exact IH.
Qed.

End Loop.

(** X3. The loop stops at the first child that fails: when the children
    before it succeed and it raises, the container raises the same
    exception in the world that child left, and no later child is
    invoked.  The same for [HybridSequential]. *)
Theorem forward_stops_at_first_failure {B : Type}
  (invoke : ref -> tensor -> M B tensor) (F : Op.t B)
  (self : ref) (before after : list ref) (c : ref) (x y : tensor) (e : exn)
  (w w1 w2 : World B) :
  children_of w self = Some (before ++ c :: after) ->
  Sequential.for_block invoke before x w = (Ok y, w1) ->
  invoke c y w1 = (Raise e, w2) ->
  Sequential.forward invoke self x w = (Raise e, w2) /\
  HybridSequential.hybrid_forward invoke self F x w = (Raise e, w2).
Proof.
  intros Hcs Hbefore Hc.
  assert (H : Sequential.for_block invoke (before ++ c :: after) x w
              = (Raise e, w2)).
  { rewrite Sequential_for_block_app. unfold bind. rewrite Hbefore. simpl.
    unfold bind. rewrite Hc. reflexivity. }
  split.
  - rewrite (Sequential_forward_children invoke self _ x w Hcs). exact H.
  - rewrite (HybridSequential_forward_children invoke self F _ x w Hcs).
    rewrite <- for_block_same. exact H.
Qed.

(** The container of the example on an array without dimensions: its
    first child, [Flatten], fails to reshape it, and the two children
    after it are not run. *)
Lemma forward_stops_at_first_failure_witness :
  let w := example.world in
  let invoke := call example.ndarray example.initializer 5 in
  let x := nd (NDArray.mk [] [1%Q]) in
  Sequential.forward invoke 0 x w = (Raise (MXNetError "Reshape"), w) /\
  HybridSequential.hybrid_forward invoke 0 example.ndarray x w
  = (Raise (MXNetError "Reshape"), w).
Proof.
  intros w invoke x.
  apply (forward_stops_at_first_failure invoke example.ndarray 0 [] [2; 3] 1
           x x (MXNetError "Reshape") w w w); reflexivity.
Defined.

(** ** What the constructors register *)

(** X4. [Dense.__init__] always registers a trainable weight of shape
    [(units, in_units)] under its prefix; it registers a trainable bias
    of shape [(units,)] exactly when [use_bias] is true, and otherwise
    the attribute [bias] is None and no Parameter of that name exists.
    Every Parameter of the layer is in the trainable enumeration. *)
Theorem Dense_registers_bias_iff_use_bias {B : Type}
  (units : Z) (activation : option string) (use_bias : bool)
  (wi bi : option string) (in_units : Z) (pfx : option string) (w : World B) :
  let run := Dense.__init__ units activation use_bias wi bi in_units
               (mkKwargs pfx None) w in
  exists self d pd,
    fst run = Ok self /\
    attrs_of (snd run) self = Some (Attr.Dense d) /\
    params_of (snd run) self = Some pd /\
    Attr.Dense._units d = units /\
    Attr.Dense._in_units d = in_units /\
    ParameterDict.lookup pd (Attr.Dense.weight d)
    = Some (Param.mk (ParameterDict.prefix pd +:+ "weight") "write"
              [units; in_units] wi true None) /\
    (if use_bias
     then exists key,
         Attr.Dense.bias d = Some key /\
         ParameterDict.lookup pd key
         = Some (Param.mk (ParameterDict.prefix pd +:+ "bias") "write"
                   [units] bi true None)
     else Attr.Dense.bias d = None /\ ParameterDict.lookup pd "bias" = None) /\
    length (ParameterDict.values pd) = (if use_bias then 2 else 1) /\
    ParameterDict.trainable pd = ParameterDict.values pd.
Proof.
  cbn zeta.
  destruct activation as [a|], use_bias;
    (eexists _, _, _; split; [reflexivity|];
     split; [unfold attrs_of; simpl;
             rewrite list_lookup_middle by reflexivity; reflexivity|];
     split; [unfold params_of; simpl;
             rewrite list_lookup_middle by reflexivity; reflexivity|];
     repeat (split; [reflexivity|]));
    first [ split; [eexists; split; reflexivity|]
          | split; [split; reflexivity|] ];
    split; reflexivity.
Qed.

(** X5. A [Dense] built with an activation name owns an [Activation]
    block of that name, and its forward is
    [F.Activation(F.FullyConnected(x, weight, bias), act_type=name)];
    built without one, its forward is [F.FullyConnected] alone. *)
Theorem Dense_applies_its_activation {B : Type} (F : Op.t B)
  (units : Z) (activation : option string) (use_bias : bool)
  (wi bi : option string) (in_units : Z) (pfx : option string)
  (x weight : tensor) (bias : option tensor) (w : World B) :
  let run := Dense.__init__ units activation use_bias wi bi in_units
               (mkKwargs pfx None) w in
  let invoke := fun c y => Activation.hybrid_forward c F y in
  let no_bias := match bias with Some _ => false | None => true end in
  exists self d,
    fst run = Ok self /\
    attrs_of (snd run) self = Some (Attr.Dense d) /\
    match activation with
    | Some name =>
        exists c, Attr.Dense.act d = Some c /\ c <> self /\
          attrs_of (snd run) c
          = Some (Attr.Activation (Attr.Activation.mk name))
    | None => Attr.Dense.act d = None
    end /\
    Dense.hybrid_forward invoke self F x weight bias (snd run)
    = (y <- op (Op.FullyConnected F x weight bias no_bias units) ;;
       match activation with
       | Some name => op (Op.Activation F y name)
       | None => ret y
       end) (snd run).
Proof.
  cbn zeta.
  destruct activation as [a|], use_bias;
    (eexists _, _; split; [reflexivity|];
     split; [unfold attrs_of; simpl;
             rewrite list_lookup_middle by reflexivity; reflexivity|]).
  1,2: split;
    [eexists; split; [reflexivity|]; split;
       [cbn [heap]; rewrite length_app; simpl; lia
       |unfold attrs_of; simpl; rewrite <- app_assoc; cbn [app];
        rewrite list_lookup_middle by reflexivity; reflexivity]|].
  3,4: split; [reflexivity|].
  all: unfold Dense.hybrid_forward, Dense.self_, bind at 1 2, deref; simpl;
    rewrite list_lookup_middle by reflexivity; simpl.
  1,2: unfold bind, op; destruct bias; simpl;
    match goal with
    | |- context [Op.FullyConnected ?f ?a ?b ?c ?d ?e ?g] =>
        destruct (Op.FullyConnected f a b c d e g) as [[y|err] st]
    end; try reflexivity;
    unfold Activation.hybrid_forward, Activation.self_, bind, deref, op; simpl;
    rewrite <- app_assoc; cbn [app];
    rewrite list_lookup_middle by reflexivity; reflexivity.
  all: destruct bias; reflexivity.
Qed.

(** X6. [Activation(name)] accepts every name without looking at it,
    names itself after it ([_alias]), hands exactly that name to
    [F.Activation] as [act_type], and prints as [Activation(name)]. *)
Theorem Activation_passes_its_name {B : Type} (name : string) (kw : kwargs)
  (w : World B) :
  let run := Activation.__init__ name kw w in
  exists self,
    fst run = Ok self /\
    attrs_of (snd run) self = Some (Attr.Activation (Attr.Activation.mk name)) /\
    Activation._alias (Attr.Activation.mk name) = name /\
    (forall (F : Op.t B) (x : tensor),
       Activation.hybrid_forward self F x (snd run)
       = op (Op.Activation F x name) (snd run)) /\
    Activation.__repr__ self (snd run)
    = (Ok ("Activation(" +:+ name +:+ ")"), snd run).
Proof.
  cbn zeta. exists (length (heap w)).
  split; [reflexivity|].
  split; [unfold attrs_of; simpl; rewrite list_lookup_middle by reflexivity;
          reflexivity|].
  split; [reflexivity|]. split.
  - intros F x. unfold Activation.hybrid_forward, Activation.self_, bind, deref.
    simpl. rewrite list_lookup_middle by reflexivity. reflexivity.
  - unfold Activation.__repr__, Activation.self_, bind, deref.
    simpl. rewrite list_lookup_middle by reflexivity. simpl.
    rewrite list_lookup_middle by reflexivity. reflexivity.
Qed.

(** X7. [LeakyReLU(alpha)] validates nothing: every slope, a negative
    one too, is stored as given, and the forward hands it to
    [F.LeakyReLU] as [slope], with [act_type='leaky']. *)
Theorem LeakyReLU_passes_its_slope {B : Type} (alpha : Q) (kw : kwargs)
  (w : World B) :
  let run := LeakyReLU.__init__ alpha kw w in
  exists self,
    fst run = Ok self /\
    attrs_of (snd run) self = Some (Attr.LeakyReLU (Attr.LeakyReLU.mk alpha)) /\
    forall (F : Op.t B) (x : tensor),
      LeakyReLU.hybrid_forward self F x (snd run)
      = op (Op.LeakyReLU F x "leaky" alpha) (snd run).
Proof.
  cbn zeta. exists (length (heap w)).
  split; [reflexivity|].
  split; [unfold attrs_of; simpl; rewrite list_lookup_middle by reflexivity;
          reflexivity|].
  intros F x. unfold LeakyReLU.hybrid_forward, LeakyReLU.self_, bind, deref.
  simpl. rewrite list_lookup_middle by reflexivity. reflexivity.
Qed.

(** X8. The keyword arguments an [Embedding] hands to [F.Embedding] are
    exactly [input_dim], [output_dim] and [dtype], with the values given
    to the constructor, and they agree with the declared shape of the
    weight: [(input_dim, output_dim)]. *)
Theorem Embedding_kwargs_agree_with_weight {B : Type}
  (input_dim output_dim : Z) (dtype : string) (wi pfx : option string)
  (w : World B) :
  let run := Embedding.__init__ input_dim output_dim dtype wi
               (mkKwargs pfx None) w in
  exists self e p,
    fst run = Ok self /\
    attrs_of (snd run) self = Some (Attr.Embedding e) /\
    param_of (snd run) self (Attr.Embedding.weight e) = Some p /\
    dom (Attr.Embedding._kwargs e)
    = ({["input_dim"; "output_dim"; "dtype"]} : gset string) /\
    Attr.Embedding._kwargs e !! "input_dim" = Some (PInt input_dim) /\
    Attr.Embedding._kwargs e !! "output_dim" = Some (PInt output_dim) /\
    Attr.Embedding._kwargs e !! "dtype" = Some (PStr dtype) /\
    Param.shape p = [input_dim; output_dim] /\
    Param.init p = wi /\
    Param.trainable p = true /\
    forall (F : Op.t B) (x weight : tensor),
      Embedding.hybrid_forward self F x weight (snd run)
      = op (Op.Embedding F x weight (Attr.Embedding._kwargs e)) (snd run).
Proof.
  cbn zeta. eexists (length (heap w)), _, _.
  split; [reflexivity|].
  split; [unfold attrs_of; simpl; rewrite list_lookup_middle by reflexivity;
          reflexivity|].
  split; [unfold param_of, params_of; simpl;
          rewrite list_lookup_middle by reflexivity; reflexivity|].
  split; [simpl; rewrite !dom_insert_L, dom_empty_L; set_solver|].
  split; [simpl; apply lookup_insert_eq|].
  split; [simpl; rewrite lookup_insert_ne by done; apply lookup_insert_eq|].
  split; [simpl; rewrite !lookup_insert_ne by done; apply lookup_insert_eq|].
  split; [reflexivity|]. split; [reflexivity|]. split; [reflexivity|].
  intros F x weight.
  unfold Embedding.hybrid_forward, Embedding.self_, bind, deref.
  simpl. rewrite list_lookup_middle by reflexivity. reflexivity.
Qed.

(** X9. [BatchNorm.__init__] registers four Parameters in the order
    gamma, beta, running_mean, running_var, each of shape
    [(in_channels,)] with its own initializer and with deferred
    initialization allowed; each is deferred exactly when [in_channels]
    is 0.  The trainable enumeration is gamma when [scale] is true
    followed by beta when [center] is true, and nothing else. *)
Theorem BatchNorm_registers_four_parameters {B : Type}
  (axis : Z) (momentum epsilon : Q) (center scale : bool)
  (bi gi rmi rvi : option string) (in_channels : Z) (pfx : option string)
  (w : World B) :
  let run := BatchNorm.__init__ axis momentum epsilon center scale bi gi rmi
               rvi in_channels (mkKwargs pfx None) w in
  exists self bn pd g be m v,
    fst run = Ok self /\
    attrs_of (snd run) self = Some (Attr.BatchNorm bn) /\
    params_of (snd run) self = Some pd /\
    ParameterDict.values pd = [g; be; m; v] /\
    ParameterDict.lookup pd (Attr.BatchNorm.gamma bn) = Some g /\
    ParameterDict.lookup pd (Attr.BatchNorm.beta bn) = Some be /\
    ParameterDict.lookup pd (Attr.BatchNorm.running_mean bn) = Some m /\
    ParameterDict.lookup pd (Attr.BatchNorm.running_var bn) = Some v /\
    map Param.name [g; be; m; v]
    = map (fun n => ParameterDict.prefix pd +:+ n)
        ["gamma"; "beta"; "running_mean"; "running_var"] /\
    map Param.shape [g; be; m; v] = repeat [in_channels] 4 /\
    map Param.init [g; be; m; v] = [gi; bi; rmi; rvi] /\
    map Param.allow_deferred_init [g; be; m; v] = repeat true 4 /\
    map Param.deferred [g; be; m; v] = repeat (in_channels =? 0)%Z 4 /\
    ParameterDict.trainable pd
    = (if scale then [g] else []) ++ (if center then [be] else []).
Proof.
  cbn zeta. eexists (length (heap w)), _, _, _, _, _, _.
  split; [reflexivity|].
  split; [unfold attrs_of; simpl; rewrite list_lookup_middle by reflexivity;
          reflexivity|].
  split; [unfold params_of; simpl; rewrite list_lookup_middle by reflexivity;
          reflexivity|].
  repeat (split; [reflexivity|]).
  split.
  { unfold Param.deferred, Param.unknown. simpl.
    rewrite orb_false_r, andb_true_r. reflexivity. }
  destruct scale, center; reflexivity.
Qed.

(** X10. The keyword arguments a [BatchNorm] hands to [F.BatchNorm] are
    exactly [axis], [eps], [momentum] and [fix_gamma]; [axis], [eps] and
    [momentum] carry the values given to the constructor.  The
    attribute [in_channels] exists exactly when the argument is not
    0. *)
Theorem BatchNorm_kwargs {B : Type}
  (axis : Z) (momentum epsilon : Q) (center scale : bool)
  (bi gi rmi rvi : option string) (in_channels : Z) (kw : kwargs)
  (w : World B) :
  unregistered kw ["gamma"; "beta"; "running_mean"; "running_var"] ->
  let run := BatchNorm.__init__ axis momentum epsilon center scale bi gi rmi
               rvi in_channels kw w in
  exists self bn,
    fst run = Ok self /\
    attrs_of (snd run) self = Some (Attr.BatchNorm bn) /\
    dom (Attr.BatchNorm._kwargs bn)
    = ({["axis"; "eps"; "momentum"; "fix_gamma"]} : gset string) /\
    Attr.BatchNorm._kwargs bn !! "axis" = Some (PInt axis) /\
    Attr.BatchNorm._kwargs bn !! "eps" = Some (PFloat epsilon) /\
    Attr.BatchNorm._kwargs bn !! "momentum" = Some (PFloat momentum) /\
    Attr.BatchNorm.in_channels bn
    = (if (in_channels =? 0)%Z then None else Some in_channels) /\
    forall (F : Op.t B) (x g b m v : tensor),
      BatchNorm.hybrid_forward self F x g b m v (snd run)
      = op (Op.BatchNorm F x g b m v (Attr.BatchNorm._kwargs bn)) (snd run).
Proof.
  intros Hun. cbn zeta.
  destruct (unregistered_base (B := B) "batchnorm" kw _ w Hun)
    as (b & Hb & Hch & Hfresh).
  inversion Hfresh as [|? ? Hg Hf1]; subst.
  inversion Hf1 as [|? ? Hbe Hf2]; subst.
  inversion Hf2 as [|? ? Hm Hf3]; subst.
  inversion Hf3 as [|? ? Hv _]; subst.
  unfold ParameterDict.lookup in Hg, Hbe, Hm, Hv.
  assert (Hrun : exists o,
             BatchNorm.__init__ axis momentum epsilon center scale bi gi rmi
               rvi in_channels kw w
             = (Ok (length (heap w)), mkWorld (heap w ++ [o]) (engine w)) /\
             attrs o
             = Attr.BatchNorm
                 (Attr.BatchNorm.mk
                    (<["axis" := PInt axis]>
                       (<["eps" := PFloat epsilon]>
                          (<["momentum" := PFloat momentum]>
                             (<["fix_gamma" := PBool (negb center)]> ∅))))
                    (if (in_channels =? 0)%Z then None else Some in_channels)
                    "gamma" "beta" "running_mean" "running_var")).
  { eexists. split; [|shelve].
    unfold BatchNorm.__init__. unfold bind at 1. rewrite Hb.
    unfold bind, lift.
    rewrite (get_unregistered _ _ _ _ _ _ Hg). cbn zeta. cbn [snd fst].
    rewrite get_unregistered
      by (unfold ParameterDict.lookup; simpl; rewrite find_app, Hbe;
          reflexivity).
    cbn zeta. cbn [snd fst ParameterDict.prefix ParameterDict.mapping].
    rewrite get_unregistered
      by (unfold ParameterDict.lookup; simpl; rewrite !find_app, Hm;
          reflexivity).
    cbn zeta. cbn [snd fst ParameterDict.prefix ParameterDict.mapping].
    rewrite get_unregistered
      by (unfold ParameterDict.lookup; simpl; rewrite !find_app, Hv;
          reflexivity).
    cbn zeta. cbn [snd fst ParameterDict.prefix ParameterDict.mapping].
    reflexivity.
    Unshelve. reflexivity. }
  destruct Hrun as (o & Hrun & Ho). rewrite Hrun. cbn [fst snd].
  eexists (length (heap w)), _.
  split; [reflexivity|].
  split; [unfold attrs_of; cbn [heap]; rewrite list_lookup_middle by reflexivity;
          rewrite Ho; reflexivity|].
  split; [simpl; rewrite !dom_insert_L, dom_empty_L; set_solver|].
  split; [simpl; apply lookup_insert_eq|].
  split; [simpl; rewrite lookup_insert_ne by done; apply lookup_insert_eq|].
  split; [simpl; rewrite !lookup_insert_ne by done; apply lookup_insert_eq|].
  split; [reflexivity|].
  intros F x g be m v.
  unfold BatchNorm.hybrid_forward, BatchNorm.self_, bind, deref.
  cbn [heap]. rewrite list_lookup_middle by reflexivity. rewrite Ho.
  reflexivity.
Qed.

Lemma BatchNorm_kwargs_witness :
  let run := BatchNorm.__init__ 1 (9 # 10) (1 # 1000) true true
               (Some "zeros") (Some "ones") (Some "zeros") (Some "ones") 16
               no_kwargs example.empty in
  exists self bn,
    fst run = Ok self /\
    attrs_of (snd run) self = Some (Attr.BatchNorm bn) /\
    Attr.BatchNorm._kwargs bn !! "axis" = Some (PInt 1) /\
    Attr.BatchNorm._kwargs bn !! "momentum" = Some (PFloat (9 # 10)) /\
    Attr.BatchNorm.in_channels bn = Some 16%Z.
Proof.
  destruct (BatchNorm_kwargs 1 (9 # 10) (1 # 1000) true true
              (Some "zeros") (Some "ones") (Some "zeros") (Some "ones") 16
              no_kwargs example.empty I)
    as (self & bn & H1 & H2 & _ & H4 & _ & H6 & H7 & _).
  exists self, bn. repeat split; assumption.
Defined.

(** ** Flatten, again *)

(** X11. [Flatten] needs only a positive batch dimension: its output
    then has rank 2, the same elements in the same order and the same
    number of elements; an input of rank 1, [(N,)], becomes [(N, 1)];
    and flattening twice is flattening once. *)
Theorem Flatten_idempotent {B : Type} (self : ref) (F : Op.t B)
  (N : Z) (ds : list Z) (data : list Q) (w : World B) :
  (0 < N)%Z ->
  let x := NDArray.mk (N :: ds) data in
  exists y,
    Flatten.hybrid_forward self F (nd x) w = (Ok (nd y), w) /\
    ndim (nd y) = Some 2 /\
    NDArray.data y = data /\
    NDArray.size (NDArray.shape y) = NDArray.size (N :: ds) /\
    (ds = [] -> NDArray.shape y = [N; 1%Z]) /\
    Flatten.hybrid_forward self F (nd y) w = (Ok (nd y), w).
Proof.
  intros HN x. exists (NDArray.mk [N; NDArray.size ds] data).
  split.
  { unfold Flatten.hybrid_forward, lift, reshape. subst x.
    rewrite (reshape_0_m1 N ds data HN). reflexivity. }
  split; [reflexivity|]. split; [reflexivity|].
  split; [unfold NDArray.size; simpl; lia|].
  split; [intros ->; reflexivity|].
  unfold Flatten.hybrid_forward, lift, reshape.
  rewrite (reshape_0_m1 N [NDArray.size ds] data HN).
  replace (NDArray.size [NDArray.size ds]) with (NDArray.size ds)
    by (unfold NDArray.size; simpl; lia).
  reflexivity.
Qed.

Lemma Flatten_idempotent_witness :
  exists y,
    Flatten.hybrid_forward 0 symbol.F (nd example.x222) example.empty
    = (Ok (nd y), example.empty) /\
    ndim (nd y) = Some 2 /\
    Flatten.hybrid_forward 0 symbol.F (nd y) example.empty
    = (Ok (nd y), example.empty).
Proof.
  destruct (Flatten_idempotent 0 symbol.F 2 [2; 2]%Z
              [1; -2; 3; -4; 5; -6; 7; -8]%Q example.empty ltac:(lia))
    as (y & H1 & H2 & _ & _ & _ & H6).
  exists y. repeat split; assumption.
Defined.

(** ** The text of a layer *)

(** X12. A [Dense] built by its constructor prints as
    [Dense(in_units -> units, act)], or as [Dense(units, act)] when
    [in_units] is 0 (unknown); [act] is [Activation(name)] for a layer
    built with an activation name and [linear] for one built without. *)
Theorem Dense_repr_after_init {B : Type}
  (_indent : string -> nat -> string) (repr_other : Obj -> string)
  (units : Z) (activation : option string) (use_bias : bool)
  (wi bi : option string) (in_units : Z) (pfx : option string)
  (fuel : nat) (w : World B) :
  let run := Dense.__init__ units activation use_bias wi bi in_units
               (mkKwargs pfx None) w in
  let layout :=
    if (in_units =? 0)%Z then pretty units
    else pretty in_units +:+ " -> " +:+ pretty units in
  let act :=
    match activation with
    | Some name => "Activation(" +:+ name +:+ ")"
    | None => "linear"
    end in
  exists self,
    fst run = Ok self /\
    repr _indent repr_other (S (S fuel)) self (snd run)
    = (Ok ("Dense(" +:+ layout +:+ ", " +:+ act +:+ ")"), snd run).
Proof.
  cbn zeta.
  destruct activation as [a|], use_bias;
    (eexists; split; [reflexivity|]);
    cbn [repr]; unfold bind at 1, deref at 1; simpl;
    rewrite list_lookup_middle by reflexivity; simpl;
    unfold Dense.__repr__, Dense.self_, bind, deref; simpl;
    rewrite list_lookup_middle by reflexivity; simpl;
    rewrite list_lookup_middle by reflexivity; simpl.
  1,2: rewrite <- ?app_assoc; cbn [app];
    rewrite list_lookup_middle by reflexivity; simpl;
    unfold Activation.__repr__, Activation.self_, bind, deref; simpl;
    rewrite <- ?app_assoc; cbn [app];
    rewrite list_lookup_middle by reflexivity; simpl;
    rewrite ?list_lookup_middle by reflexivity; simpl.
  all: destruct (in_units =? 0)%Z; reflexivity.
Qed.

Section ReprChildren.
Context {B : Type}.
Variable _indent : string -> nat -> string.
Variable repr_block : ref -> M B string.
Variable f : ref -> string.

Lemma Sequential_modstr_entries_run (cs : list ref) (key : nat) (w : World B) :
  (forall c, In c cs -> repr_block c w = (Ok (f c), w)) ->
  Sequential.modstr_entries _indent repr_block key cs w
  = (Ok (imap (fun i c => modstr_entry _indent (key + i) (f c)) cs), w).
Proof.
  revert key. induction cs as [|c cs IH]; intros key Hf; simpl.
  - reflexivity.
  - unfold bind. rewrite (Hf c) by (left; reflexivity).
    rewrite (IH (S key)) by (intros c' Hc'; apply Hf; right; exact Hc').
    unfold ret. rewrite Nat.add_0_r. do 3 f_equal.
    apply imap_ext. intros i c' _. simpl. f_equal. lia.
Qed.

Lemma HybridSequential_modstr_entries_run (cs : list ref) (key : nat)
  (w : World B) :
  (forall c, In c cs -> repr_block c w = (Ok (f c), w)) ->
  HybridSequential.modstr_entries _indent repr_block key cs w
  = (Ok (imap (fun i c => modstr_entry _indent (key + i) (f c)) cs), w).
Proof.
  revert key. induction cs as [|c cs IH]; intros key Hf; simpl.
  - reflexivity.
  - unfold bind. rewrite (Hf c) by (left; reflexivity).
    rewrite (IH (S key)) by (intros c' Hc'; apply Hf; right; exact Hc').
    unfold ret. rewrite Nat.add_0_r. do 3 f_equal.
    apply imap_ext. intros i c' _. simpl. f_equal. lia.
Qed.

End ReprChildren.

(** X13. The text of a container names its class and lists its children
    in registration order, one entry per child, keyed by the position
    0, 1, 2, ... of the child and holding the indented text of the
    child; computing it changes nothing.  [Sequential] and
    [HybridSequential] print the same listing. *)
Theorem container_repr_lists_children {B : Type}
  (_indent : string -> nat -> string) (repr_block : ref -> M B string)
  (f : ref -> string) (self : ref) (o : Obj) (w : World B) :
  heap w !! self = Some o ->
  (forall c, In c (_children (base o)) -> repr_block c w = (Ok (f c), w)) ->
  let entries :=
    imap (fun i c => modstr_entry _indent i (f c)) (_children (base o)) in
  let text :=
    class_name (attrs o) +:+ "(" +:+ newline +:+
    String.concat newline entries +:+ newline +:+ ")" in
  length entries = length (_children (base o)) /\
  Sequential.__repr__ _indent repr_block self w = (Ok text, w) /\
  HybridSequential.__repr__ _indent repr_block self w = (Ok text, w).
Proof.
  intros Ho Hf. cbn zeta. split; [apply length_imap|].
  unfold Sequential.__repr__, HybridSequential.__repr__, bind at 1 3.
  rewrite (deref_lookup _ _ _ Ho). unfold bind.
  rewrite (Sequential_modstr_entries_run _indent repr_block f _ 0 w Hf).
  rewrite (HybridSequential_modstr_entries_run _indent repr_block f _ 0 w Hf).
  split; reflexivity.
Qed.

(** The container of the example, with an [_indent] that leaves a text
    of one line as it is. *)
Lemma container_repr_lists_children_witness :
  let w := example.world in
  let _indent := fun (s : string) (n : nat) => s in
  let repr_block := repr _indent (fun _ => "Dropout(p = 0.5)") 3 in
  Sequential.__repr__ _indent repr_block 0 w
  = (Ok (String.concat newline
           ["Sequential("; "  (0): Flatten"; "  (1): Activation(relu)";
            "  (2): Dropout(p = 0.5)"; ")"]), w).
Proof.
  intros w _indent repr_block.
  refine (proj1 (proj2 (container_repr_lists_children _indent repr_block
            (fun c => match c with
                      | 1 => "Flatten"
                      | 2 => "Activation(relu)"
                      | _ => "Dropout(p = 0.5)"
                      end) 0 _ w eq_refl _))).
  intros c [<-|[<-|[<-|[]]]]; reflexivity.
Defined.

(** ** Nested containers *)

(** X14. Nesting is composition.  Let one child of a container be the
    container [inner], whose children in the heap are [ics] and whose
    call runs its own forward, and let the blocks before it leave it as
    it is.  Then the forward of the outer container runs the blocks
    before [inner], then the loop of [inner] over [ics], then the
    blocks after it: the children of [inner] take the place of
    [inner]. *)
Theorem nested_container_flattens {B : Type}
  (invoke invoke' : ref -> tensor -> M B tensor) (F : Op.t B)
  (self inner : ref) (oi : Obj) (before after : list ref) (x : tensor)
  (w : World B) :
  children_of w self = Some (before ++ inner :: after) ->
  heap w !! inner = Some oi ->
  (forall c y, In c before -> keeps (holds inner oi) (invoke c y)) ->
  (forall y w', heap w' !! inner = Some oi ->
     invoke inner y w' = Sequential.forward invoke' inner y w') ->
  let ics := _children (base oi) in
  Sequential.forward invoke self x w
  = (y <- Sequential.for_block invoke before x ;;
     z <- Sequential.for_block invoke' ics y ;;
     Sequential.for_block invoke after z) w /\
  HybridSequential.hybrid_forward invoke self F x w
  = (y <- Sequential.for_block invoke before x ;;
     z <- Sequential.for_block invoke' ics y ;;
     Sequential.for_block invoke after z) w.
Proof.
  intros Hcs Hoi Hkeep Hinner ics.
  assert (H : Sequential.for_block invoke (before ++ inner :: after) x w
              = (y <- Sequential.for_block invoke before x ;;
                 z <- Sequential.for_block invoke' ics y ;;
                 Sequential.for_block invoke after z) w).
  { rewrite Sequential_for_block_app.
    pose proof (Sequential_for_block_keeps invoke (holds inner oi) before x
                  (fun c y Hc => Hkeep c y Hc) w Hoi) as Hw1.
    unfold bind.
    destruct (Sequential.for_block invoke before x w) as [[y|e] w1];
      [|reflexivity].
    cbn [snd] in Hw1. cbn [Sequential.for_block]. unfold bind.
    rewrite (Hinner y w1 Hw1).
    unfold Sequential.forward, bind.
    rewrite (deref_lookup _ _ _ Hw1). reflexivity. }
  split.
  - rewrite (Sequential_forward_children invoke self _ x w Hcs). exact H.
  - rewrite (HybridSequential_forward_children invoke self F _ x w Hcs).
    rewrite <- for_block_same. exact H.
Qed.

(** The container 6 of the example holds the block 5 and the container
    0; calls are dispatched on the class of the block, so that the call
    of the container 0 reads its children 1, 2 and 3 from the heap. *)
Lemma nested_container_flattens_witness :
  let invoke := call example.ndarray example.initializer 3 in
  let invoke' := call example.ndarray example.initializer 2 in
  let x := nd example.x222 in
  children_of example.world 6 = Some [5; 0] /\
  children_of example.world 0 = Some [1; 2; 3] /\
  Sequential.forward invoke 6 x example.world
  = (y <- Sequential.for_block invoke [5] x ;;
     z <- Sequential.for_block invoke' [1; 2; 3] y ;;
     Sequential.for_block invoke [] z) example.world.
Proof.
  intros invoke invoke' x.
  assert (Hcs : children_of example.world 6 = Some ([5] ++ 0 :: []))
    by reflexivity.
  split; [exact Hcs|]. split; [reflexivity|].
  refine (proj1 (nested_container_flattens invoke invoke' example.ndarray 6 0 _
                   [5] [] x example.world Hcs eq_refl _ _)).
  - intros c y _. apply call_keeps_param_free. exact I.
  - intros y w' Hw'. unfold invoke. cbn [call]. unfold bind at 1.
    rewrite (deref_lookup _ _ _ Hw'). reflexivity.
Defined.

(** ** The text of a Dense and its first call *)

Section DenseText.
Context {B : Type}.
Variable _indent : string -> nat -> string.
Variable repr_other : Obj -> string.

Lemma Dense_repr_run (fuel : nat) (self : ref) (o : Obj) (d : Attr.Dense.t)
  (act : string) (w : World B) :
  heap w !! self = Some o ->
  attrs o = Attr.Dense d ->
  match Attr.Dense.act d with
  | Some c => exists oc t,
      heap w !! c = Some oc /\ attrs oc = Attr.Activation t /\
      act = "Activation(" +:+ Attr.Activation._act_type t +:+ ")"
  | None => act = "linear"
  end ->
  repr _indent repr_other (S (S fuel)) self w
  = (Ok ("Dense(" +:+
         (if (Attr.Dense._in_units d =? 0)%Z
          then pretty (Attr.Dense._units d)
          else pretty (Attr.Dense._in_units d) +:+ " -> " +:+
               pretty (Attr.Dense._units d)) +:+
         ", " +:+ act +:+ ")"), w).
Proof.
  intros Ho Hd Hact. cbn [repr].
  unfold bind at 1. rewrite (deref_lookup _ _ _ Ho), Hd.
  unfold Dense.__repr__, Dense.self_. unfold bind at 1.
  rewrite (deref_lookup _ _ _ Ho). unfold bind at 1 2.
  rewrite (deref_lookup _ _ _ Ho), Hd. cbn [ret].
  destruct (Attr.Dense.act d) as [c|].
  - destruct Hact as (oc & t & Hoc & Ht & ->).
    unfold bind at 1 2. rewrite (deref_lookup _ _ _ Hoc), Ht.
    unfold Activation.__repr__, Activation.self_. unfold bind at 1.
    rewrite (deref_lookup _ _ _ Hoc). unfold bind at 1 2.
    rewrite (deref_lookup _ _ _ Hoc), Ht. reflexivity.
  - subst act. reflexivity.
Qed.

End DenseText.

Lemma Dense_init_facts {B : Type} (units : Z) (activation : option string)
  (use_bias : bool) (wi bi : option string) (in_units : Z)
  (pfx : option string) (w : World B) :
  exists (h : list Obj) (o : Obj) (d : Attr.Dense.t) (name : string),
    Dense.__init__ units activation use_bias wi bi in_units
      (mkKwargs pfx None) w
    = (Ok (length h), mkWorld (h ++ [o]) (engine w)) /\
    attrs o = Attr.Dense d /\
    Attr.Dense._units d = units /\
    Attr.Dense._in_units d = in_units /\
    Attr.Dense.weight d = "weight" /\
    Attr.Dense.bias d = (if use_bias then Some "bias" else None) /\
    params (base o)
    = ParameterDict.mk name
        (("weight", Param.mk (name +:+ "weight") "write" [units; in_units] wi
                      true None) ::
         if use_bias
         then [("bias", Param.mk (name +:+ "bias") "write" [units] bi true None)]
         else []) /\
    match activation with
    | Some a => exists c oc,
        Attr.Dense.act d = Some c /\ c <> length h /\
        (h ++ [o]) !! c = Some oc /\
        attrs oc = Attr.Activation (Attr.Activation.mk a)
    | None => Attr.Dense.act d = None
    end.
Proof.
  destruct activation as [a|], use_bias;
    (eexists _, _, _, _; split; [reflexivity|]; repeat (split; [reflexivity|]));
    cbn; try reflexivity.
  all: eexists _, _; split; [reflexivity|];
    split; [rewrite length_app; simpl; lia|];
    split; [rewrite <- app_assoc; apply list_lookup_middle; reflexivity
           |reflexivity].
Qed.

(** The heap after the first call of a [Dense] with unknown [in_units]:
    only the ParameterDict of the layer has changed. *)
Lemma Dense_first_call_heap {B : Type}
  (ndarray : Op.t B) (initializer : option string -> list Z -> NDArray.t)
  (units : Z) (use_bias : bool) (wi bi : option string)
  (fuel : nat) (dims : list Z) (features : Z) (data : list Q)
  (h : list Obj) (o : Obj) (d : Attr.Dense.t) (name : string) (e : B) :
  (0 < units)%Z -> (0 < features)%Z ->
  attrs o = Attr.Dense d ->
  Attr.Dense._units d = units ->
  Attr.Dense.weight d = "weight" ->
  Attr.Dense.bias d = (if use_bias then Some "bias" else None) ->
  params (base o)
  = ParameterDict.mk name
      (("weight", Param.mk (name +:+ "weight") "write" [units; 0%Z] wi
                    true None) ::
       if use_bias
       then [("bias", Param.mk (name +:+ "bias") "write" [units] bi true None)]
       else []) ->
  match Attr.Dense.act d with
  | Some c => c <> length h /\ exists oc act,
                (h ++ [o]) !! c = Some oc /\ attrs oc = Attr.Activation act
  | None => True
  end ->
  exists pd,
    ParameterDict.lookup pd "weight"
    = Some (Param.mk (name +:+ "weight") "write" [units; features] wi true
              (Some (initializer wi [units; features]))) /\
    heap (snd (call ndarray initializer (S fuel) (length h)
                 (nd (NDArray.mk (dims ++ [features]) data))
                 (mkWorld (h ++ [o]) e)))
    = <[length h := mkObj (mkBlock (prefix (base o)) pd (_children (base o)))
                      (attrs o)]> (h ++ [o]).
Proof.
  intros Hu Hf Hd Hunits Hweight Hbias Hparams Hact.
  pose proof (resolve_weight units features Hu Hf) as Hrw.
  assert (Hkb : Param.unknown [units] = false)
    by (apply unknown_positive; repeat constructor; exact Hu).
  assert (Hkw : Param.unknown [units; features] = false)
    by (apply unknown_positive; repeat constructor; assumption).
  pose proof (resolve_known [units] Hkb) as Hrb.
  assert (Ho : (h ++ [o]) !! length h = Some o)
    by (apply list_lookup_middle; reflexivity).
  set (a := NDArray.mk (dims ++ [features]) data).
  set (w1 := mkWorld (h ++ [o]) e).
  assert (Hinfer : infer_shape (attrs o) (NDArray.shape a)
                   = Ok (("weight", [units; features]) ::
                         if use_bias then [("bias", [units])] else [])).
  { rewrite Hd. unfold infer_shape. simpl NDArray.shape.
    rewrite last_snoc, Hweight, Hunits, Hbias. destruct use_bias; reflexivity. }
  set (pw := Param.mk (name +:+ "weight") "write" [units; features] wi true).
  set (pb := Param.mk (name +:+ "bias") "write" [units] bi true).
  assert (Hres : resolve_all (params (base o))
                   (("weight", [units; features]) ::
                    if use_bias then [("bias", [units])] else [])
                 = Ok (ParameterDict.mk name
                         (("weight", pw None) ::
                          if use_bias then [("bias", pb None)] else []))).
  { rewrite Hparams. destruct use_bias; cbn -[Param.resolve];
      unfold Param.resolve_shape; cbn -[Param.resolve]; rewrite Hrw;
      cbn -[Param.resolve]; [|reflexivity].
    unfold Param.resolve_shape; cbn -[Param.resolve]. rewrite Hrb.
    reflexivity. }
  assert (Hmat : materialize_all initializer
                   (("weight", pw None) ::
                    if use_bias then [("bias", pb None)] else [])
                 = Ok (("weight", pw (Some (initializer wi [units; features]))) ::
                       if use_bias
                       then [("bias", pb (Some (initializer bi [units])))]
                       else [])).
  { destruct use_bias; cbn -[Param.unknown]; rewrite Hkw; cbn -[Param.unknown];
      [|reflexivity].
    rewrite Hkb. reflexivity. }
  pose proof (prepare_run initializer (length h) a w1 o _ _ _ Ho Hinfer Hres Hmat)
    as Hprep.
  cbn [ParameterDict.prefix] in Hprep.
  match type of Hprep with
  | _ = (_, mkWorld (<[_ := ?ob]> _) _) => set (o' := ob) in Hprep
  end.
  eexists. split; [|
    exact (call_Dense_heap ndarray initializer fuel (length h) a w1 o o' d Ho Hd
             Hd Hprep Hact)].
  reflexivity.
Qed.

(** X15. The text of a [Dense] reads the attribute [_in_units], which
    no call updates: a layer built with unknown [in_units] prints as
    [Dense(units, act)] before its first call and prints the same after
    the call has resolved the shape of its weight to
    [(units, features)]. *)
Theorem Dense_repr_unchanged_by_first_call {B : Type}
  (ndarray : Op.t B) (initializer : option string -> list Z -> NDArray.t)
  (_indent : string -> nat -> string) (repr_other : Obj -> string)
  (units : Z) (activation : option string) (use_bias : bool)
  (wi bi pfx : option string) (w : World B)
  (fuel rfuel : nat) (dims : list Z) (features : Z) (data : list Q) :
  (0 < units)%Z -> (0 < features)%Z ->
  let run := Dense.__init__ units activation use_bias wi bi 0
               (mkKwargs pfx None) w in
  let text :=
    "Dense(" +:+ pretty units +:+ ", " +:+
    match activation with
    | Some name => "Activation(" +:+ name +:+ ")"
    | None => "linear"
    end +:+ ")" in
  exists self p',
    fst run = Ok self /\
    let x := nd (NDArray.mk (dims ++ [features]) data) in
    let after := snd (call ndarray initializer (S fuel) self x (snd run)) in
    repr _indent repr_other (S (S rfuel)) self (snd run) = (Ok text, snd run) /\
    repr _indent repr_other (S (S rfuel)) self after = (Ok text, after) /\
    param_of after self "weight" = Some p' /\
    Param.shape p' = [units; features].
Proof.
  intros Hu Hf run text.
  destruct (Dense_init_facts units activation use_bias wi bi 0 pfx w)
    as (h & o & d & name & Hrun & Hd & Hunits & Hin & Hweight & Hbias
        & Hparams & Hact).
  subst run. rewrite Hrun. cbn [fst snd].
  assert (Ho : (h ++ [o]) !! length h = Some o)
    by (apply list_lookup_middle; reflexivity).
  assert (Hact' : match Attr.Dense.act d with
                  | Some c => c <> length h /\ exists oc act,
                      (h ++ [o]) !! c = Some oc /\ attrs oc = Attr.Activation act
                  | None => True
                  end).
  { destruct activation as [a|].
    - destruct Hact as (c & oc & -> & Hne & Hoc & Ht). split; [exact Hne|].
      exists oc. eexists. split; [exact Hoc | exact Ht].
    - rewrite Hact. exact I. }
  destruct (Dense_first_call_heap ndarray initializer units use_bias wi bi fuel
              dims features data h o d name (engine w) Hu Hf Hd Hunits Hweight
              Hbias Hparams Hact') as (pd & Hpd & Hafter).
  set (after := snd (call _ _ _ _ _ _)) in *.
  set (o' := mkObj _ _) in Hafter.
  assert (Ho' : heap after !! length h = Some o').
  { rewrite Hafter. apply list_lookup_insert_eq. rewrite length_app. simpl. lia. }
  assert (Htext : forall (w' : World B) ob,
             heap w' !! length h = Some ob -> attrs ob = Attr.Dense d ->
             (forall c, c <> length h -> heap w' !! c = (h ++ [o]) !! c) ->
             repr _indent repr_other (S (S rfuel)) (length h) w' = (Ok text, w')).
  { intros w' ob Hob Hattr Hrest.
    rewrite (Dense_repr_run _indent repr_other rfuel (length h) ob d
               (match activation with
                | Some name0 => "Activation(" +:+ name0 +:+ ")"
                | None => "linear"
                end) w' Hob Hattr).
    - rewrite Hin, Hunits. reflexivity.
    - destruct activation as [a|].
      + destruct Hact as (c & oc & -> & Hne & Hoc & Ht).
        exists oc, (Attr.Activation.mk a).
        split; [rewrite (Hrest c Hne); exact Hoc|]. split; [exact Ht|reflexivity].
      + rewrite Hact. reflexivity. }
  exists (length h). eexists. split; [reflexivity|]. cbn zeta. fold after.
  split; [apply (Htext (mkWorld (h ++ [o]) (engine w)) o Ho Hd); intros;
          reflexivity|].
  split.
  { apply (Htext after o' Ho' Hd). intros c Hc. rewrite Hafter.
    apply list_lookup_insert_ne. intros E. apply Hc. symmetry. exact E. }
  split.
  - unfold param_of, params_of. rewrite Ho'. cbn [params base o']. exact Hpd.
  - reflexivity.
Qed.

(** [Dense(3, activation='relu')] prints as [Dense(3, Activation(relu))]
    before and after a call on an array of shape (4, 7). *)
Lemma Dense_repr_unchanged_by_first_call_witness :
  let run := Dense.__init__ 3 (Some "relu") true None (Some "zeros") 0
               no_kwargs example.empty in
  let _indent := fun (s : string) (n : nat) => s in
  let repr_other := fun _ : Obj => "" in
  exists self p',
    fst run = Ok self /\
    let x := nd (NDArray.mk [4; 7]%Z (repeat 0%Q 28)) in
    let after := snd (call example.ndarray example.initializer 2 self x
                        (snd run)) in
    repr _indent repr_other 2 self (snd run)
    = (Ok "Dense(3, Activation(relu))", snd run) /\
    repr _indent repr_other 2 self after
    = (Ok "Dense(3, Activation(relu))", after) /\
    param_of after self "weight" = Some p' /\
    Param.shape p' = [3; 7]%Z.
Proof.
  apply (Dense_repr_unchanged_by_first_call example.ndarray example.initializer
           (fun s _ => s) (fun _ => "") 3 (Some "relu") true None (Some "zeros")
           None example.empty 1 0 [4%Z] 7 (repeat 0%Q 28)); lia.
Defined.
